(** * pgx-reconnect: the reconnect/retry wrapper of [reconnect.go]

    A shallow embedding of package [pgxreconnect].  The wrapper's own
    functions ([Connect], [Query], [QueryRow], [Exec], [Reconnect], [Ping],
    [Close], [checkConn], [reconnectable]) are translated line by line.
    Its collaborators are modelled next to them:
    - Go error values and the [errors.Is] / [errors.As] walks of package
      [errors];
    - the driver (pgx v5.6.0) as an environment that answers every call
      from the history of calls made so far;
    - the retry loop [backoff.Retry] of cenkalti/backoff v4.3.0, the
      version pinned in [go.mod]. *)

From Stdlib Require Import List String Ascii Bool Arith Lia.
Import ListNotations.
Local Open Scope string_scope.

(** ** Go error values *)

Module GoErrors.

(** The dynamic types an error of this program can have, as far as the
    program tells them apart: [*backoff.PermanentError],
    [*pgconn.ConnectError], pgconn's [*errTimeout], and everything else
    ([*errors.errorString], [*fmt.wrapError], [*pgconn.PgError], ...). *)
Inductive errKind : Type :=
| KPlain
| KPermanent
| KConnect
| KTimeout.

Definition errKind_eqb (a b : errKind) : bool :=
  match a, b with
  | KPlain, KPlain | KPermanent, KPermanent
  | KConnect, KConnect | KTimeout, KTimeout => true
  | _, _ => false
  end.

(** An error value.  [addr] is the identity of the allocated object (all
    the error types above are used through pointers, so [==] on two error
    interfaces compares dynamic type and address); [text] is what
    [Error()] returns; [safeToRetry] is [Some b] when the dynamic type has
    a [SafeToRetry() bool] method and it answers [b]; [causes] is what
    [Unwrap()] gives: nothing, one error, or several (fmt.Errorf with more
    than one %w). *)
#[local] Unset Elimination Schemes.
Inductive error : Type :=
| Err (kind : errKind) (addr : nat) (text : string)
      (safeToRetry : option bool) (causes : list error).
#[local] Set Elimination Schemes.

Definition kind_of (e : error) : errKind :=
  match e with Err k _ _ _ _ => k end.
Definition addr_of (e : error) : nat :=
  match e with Err _ a _ _ _ => a end.
Definition Error (e : error) : string :=
  match e with Err _ _ t _ _ => t end.
Definition Unwrap (e : error) : list error :=
  match e with Err _ _ _ _ cs => cs end.

(** Induction over an error together with everything it wraps. *)
Section ErrorInd.
Variable P : error -> Prop.
Hypothesis step : forall k a t s cs, Forall P cs -> P (Err k a t s cs).

Fixpoint error_ind' (e : error) : P e :=
  match e with
  | Err k a t s cs =>
      step k a t s cs
        ((fix all (l : list error) : Forall P l :=
            match l with
            | [] => Forall_nil P
            | c :: l' => Forall_cons c (error_ind' c) (all l')
            end) cs)
  end.
End ErrorInd.

(** [errors.As(err, &target)] for a target of pointer type [k]: the first
    value of dynamic type [k] met walking [err] and what it unwraps to,
    depth first.  None of the modelled types has an [As] method. *)
Fixpoint errors_As (k : errKind) (e : error) : option error :=
  match e with
  | Err k' _ _ _ cs =>
      if errKind_eqb k' k then Some e
      else (fix walk (l : list error) : option error :=
              match l with
              | [] => None
              | c :: l' =>
                  match errors_As k c with
                  | Some r => Some r
                  | None => walk l'
                  end
              end) cs
  end.

(** [errors.As(err, &x)] for [x] of interface type
    [interface{ SafeToRetry() bool }]: the first value in the walk whose
    type has that method. *)
Fixpoint as_SafeToRetry (e : error) : option bool :=
  match e with
  | Err _ _ _ s cs =>
      match s with
      | Some b => Some b
      | None => (fix walk (l : list error) : option bool :=
                   match l with
                   | [] => None
                   | c :: l' =>
                       match as_SafeToRetry c with
                       | Some r => Some r
                       | None => walk l'
                       end
                   end) cs
      end
  end.

(** [x.Is(target)] for the values that have an [Is] method: only
    [*backoff.PermanentError], which accepts any [*PermanentError]. *)
Definition Is_method (e target : error) : bool :=
  match kind_of e with
  | KPermanent => errKind_eqb (kind_of target) KPermanent
  | _ => false
  end.

(** [err == target] on two error interfaces holding pointers. *)
Definition same_object (e target : error) : bool :=
  errKind_eqb (kind_of e) (kind_of target) && Nat.eqb (addr_of e) (addr_of target).

(** [errors.Is(err, target)]: some value in the walk is the target itself
    or has an [Is] method that accepts it. *)
Fixpoint errors_Is (e target : error) : bool :=
  match e with
  | Err _ _ _ _ cs =>
      same_object e target
      || Is_method e target
      || (fix walk (l : list error) : bool :=
            match l with
            | [] => false
            | c :: l' => errors_Is c target || walk l'
            end) cs
  end.

(** The largest address used by [e] and what it wraps. *)
Fixpoint max_addr (e : error) : nat :=
  match e with
  | Err _ a _ _ cs =>
      Nat.max a
        ((fix walk (l : list error) : nat :=
            match l with
            | [] => 0
            | c :: l' => Nat.max (max_addr c) (walk l')
            end) cs)
  end.

(** A composite literal [&T{}] evaluated while [live] is reachable
    allocates an object whose address is none of those in [live]. *)
Definition new_addr (live : error) : nat := S (max_addr live).

(** [errors.New(text)] for a package-level sentinel stored at [a]. *)
Definition errors_New (a : nat) (t : string) : error := Err KPlain a t None [].

(** [strings.Contains(s, sub)]. *)
Fixpoint strings_Contains (s sub : string) : bool :=
  if String.prefix sub s then true
  else match s with
       | EmptyString => false
       | String _ s' => strings_Contains s' sub
       end.

End GoErrors.
Import GoErrors.

(** ** The environment: driver, contexts and backoff policies *)

(** [*pgx.Conn] values are named by numbers; [context.Context] values too.
    Result values of the driver are opaque tokens. *)
Definition handle := nat.
Definition Context := nat.
Definition Duration := nat.
Definition Rows := nat.
Definition Row := nat.
Definition CommandTag := string.

(** What [ctx.Err()] can be once a context is done. *)
Inductive ctxError : Type := Canceled | DeadlineExceeded.

Definition ctx_error (ce : ctxError) : error :=
  match ce with
  | Canceled => errors_New 3 "context canceled"
  | DeadlineExceeded => errors_New 4 "context deadline exceeded"
  end.

(** A [backoff.BackOff] value: which policy object it is, and the context
    it carries when it is a [backoff.BackOffContext] (made with
    [backoff.WithContext]). *)
Record BackOff : Type := mkBackOff {
  bo_id : nat;
  bo_ctx : option Context
}.

(** [backoff.NewExponentialBackOff()]: carries no context. *)
Definition NewExponentialBackOff : BackOff := mkBackOff 0 None.

(** Every call that leaves the wrapper, in the order it was made. *)
Inductive event : Type :=
| EvConnect (ctx : Context) (connString : string)
| EvClose (ctx : Context) (h : handle)
| EvQuery (ctx : Context) (h : handle) (sql : string) (args : list string)
| EvQueryRow (ctx : Context) (h : handle) (sql : string) (args : list string)
| EvExec (ctx : Context) (h : handle) (sql : string) (args : list string)
| EvPing (ctx : Context) (h : handle)
| EvReset (b : BackOff)
| EvNextBackOff (b : BackOff)
| EvWait (d : Duration).

(** The environment answers each call from the calls made before it:
    - [on_Connect]: the error of [pgx.Connect], if any;
    - [on_Close], [on_Query], [on_QueryRow], [on_Exec], [on_Ping]: what the
      method of the handle returns;
    - [on_lost]: whether the driver has found the connection dead, so that
      [IsClosed] answers true without [Close] having been called;
    - [on_NextBackOff]: the next interval of the policy, [None] for
      [backoff.Stop];
    - [on_ctx_Err]: what [Err()] of a context answers; asked after a wait,
      a non-nil answer means that [Done()] won the [select]. *)
Record Env : Type := mkEnv {
  on_Connect : list event -> Context -> string -> option error;
  on_Close : list event -> Context -> handle -> option error;
  on_lost : list event -> handle -> bool;
  on_Query : list event -> Context -> handle -> string -> list string
             -> Rows * option error;
  on_QueryRow : list event -> Context -> handle -> string -> list string -> Row;
  on_Exec : list event -> Context -> handle -> string -> list string
            -> CommandTag * option error;
  on_Ping : list event -> Context -> handle -> option error;
  on_NextBackOff : list event -> BackOff -> option Duration;
  on_ctx_Err : list event -> Context -> option ctxError
}.

(** The state outside the wrapper: the handles closed through
    [Conn.Close], and the calls made so far. *)
Record World : Type := mkWorld {
  closed : list handle;
  trace : list event
}.

Definition record (ev : event) (w : World) : World :=
  mkWorld (closed w) (trace w ++ [ev]).

(** ** The wrapper's data *)

(** [type ReConn struct { ConnString string; Conn *pgx.Conn; Backoff backoff.BackOff }] *)
Record ReConn : Type := mkReConn {
  ConnString : string;
  Conn : option handle;
  Backoff : option BackOff
}.

Definition set_Conn (c : ReConn) (h : option handle) : ReConn :=
  mkReConn (ConnString c) h (Backoff c).
Definition set_Backoff (c : ReConn) (b : option BackOff) : ReConn :=
  mkReConn (ConnString c) (Conn c) b.

(** [var ErrNoConnString = errors.New(...)], [var ErrReconnect = errors.New(...)] *)
Definition ErrNoConnString : error := errors_New 1 "no connection string provided".
Definition ErrReconnect : error := errors_New 2 "error while reconnecting".

(** How a call ends: it is still in the retry loop when the fuel runs out,
    it panics because a nil [*pgx.Conn] is dereferenced, or it returns [a]
    leaving the receiver as [c] and the world as [w]. *)
Inductive run (A : Type) : Type :=
| Unfinished
| NilDeref
| Return (a : A) (c : ReConn) (w : World).
Arguments Unfinished {A}.
Arguments NilDeref {A}.
Arguments Return {A} a c w.

(** Why the retry loop stopped. *)
Inductive stop : Type :=
| Connected
| PermanentFailure (pe : error)
| Exhausted (last : error)
| CancelledAtStop (ce : ctxError)
| CancelledInWait (ce : ctxError).

(** [pe.Err] of a [*backoff.PermanentError]. *)
Definition PermanentError_Err (pe : error) : option error :=
  match Unwrap pe with
  | [] => None
  | e :: _ => Some e
  end.

(** [backoff.Permanent(err)] stored at [a]. *)
Definition backoff_Permanent (a : nat) (err : error) : error :=
  Err KPermanent a (Error err) None [err].

(** ** The driver and the retry loop, then the wrapper itself *)

Section Wrapper.

Variable E : Env.

(** *** Driver calls *)

(** [pgx.Connect(ctx, connString)]: an error, or a new handle. *)
Definition pgx_Connect (ctx : Context) (connString : string) (w : World)
  : (error + handle) * World :=
  let w' := record (EvConnect ctx connString) w in
  match on_Connect E (trace w) ctx connString with
  | Some err => (inl err, w')
  | None => (inr (List.length (trace w)), w')
  end.

(** [conn.Close(ctx)]: the handle is closed afterwards, whatever the
    outcome. *)
Definition Conn_Close (ctx : Context) (h : handle) (w : World)
  : option error * World :=
  (on_Close E (trace w) ctx h,
   mkWorld (h :: closed w) (trace w ++ [EvClose ctx h])).

(** [conn.IsClosed()]: closed through [Close], or found dead by the
    driver. *)
Definition Conn_IsClosed (h : handle) (w : World) : bool :=
  existsb (Nat.eqb h) (closed w) || on_lost E (trace w) h.

(** *** Classification helpers of pgconn *)

(** [pgconn.Timeout(err)]: [errors.As] finds an [*errTimeout]. *)
Definition pgconn_Timeout (err : error) : bool :=
  match errors_As KTimeout err with Some _ => true | None => false end.

(** [pgconn.SafeToRetry(err)]: [errors.As] finds a value with a
    [SafeToRetry] method, and that method answers true. *)
Definition pgconn_SafeToRetry (err : error) : bool :=
  match as_SafeToRetry err with Some b => b | None => false end.

(** *** [backoff.Retry] *)

(** [getContext(b).Err()]: the policy's own context, or
    [context.Background()], which is never done. *)
Definition policy_ctx_Err (b : BackOff) (w : World) : option ctxError :=
  match bo_ctx b with
  | Some ctx => on_ctx_Err E (trace w) ctx
  | None => None
  end.

(** An [Operation]: a closure over the receiver, run against the world. *)
Definition Operation : Type := ReConn -> World -> option error * ReConn * World.

(** The [for] loop of [doRetryNotify]:
<<
    for {
        res, err = operation()
        if err == nil { return res, nil }
        var permanent *PermanentError
        if errors.As(err, &permanent) { return res, permanent.Err }
        if next = b.NextBackOff(); next == Stop {
            if cerr := ctx.Err(); cerr != nil { return res, cerr }
            return res, err
        }
        t.Start(next)
        select {
        case <-ctx.Done(): return res, ctx.Err()
        case <-t.C():
        }
    }
>>
    One unit of fuel pays for one pass.  The [select] is resolved by asking
    the policy's context once the interval has been waited for. *)
Fixpoint retry_loop (fuel : nat) (o : Operation) (b : BackOff)
  (c : ReConn) (w : World) : option (stop * ReConn * World) :=
  match fuel with
  | O => None
  | S fuel' =>
      let '(err, c1, w1) := o c w in
      match err with
      | None => Some (Connected, c1, w1)
      | Some err =>
          match errors_As KPermanent err with
          | Some permanent => Some (PermanentFailure permanent, c1, w1)
          | None =>
              let w2 := record (EvNextBackOff b) w1 in
              match on_NextBackOff E (trace w1) b with
              | None =>
                  match policy_ctx_Err b w2 with
                  | Some cerr => Some (CancelledAtStop cerr, c1, w2)
                  | None => Some (Exhausted err, c1, w2)
                  end
              | Some next =>
                  let w3 := record (EvWait next) w2 in
                  match policy_ctx_Err b w3 with
                  | Some cerr => Some (CancelledInWait cerr, c1, w3)
                  | None => retry_loop fuel' o b c1 w3
                  end
              end
          end
      end
  end.

(** What [Retry] returns for each way out of the loop. *)
Definition stop_error (s : stop) : option error :=
  match s with
  | Connected => None
  | PermanentFailure permanent => PermanentError_Err permanent
  | Exhausted err => Some err
  | CancelledAtStop cerr => Some (ctx_error cerr)
  | CancelledInWait cerr => Some (ctx_error cerr)
  end.

(** [backoff.Retry(o, b)]: [b.Reset()], then the loop. *)
Definition backoff_Retry (fuel : nat) (o : Operation) (b : BackOff)
  (c : ReConn) (w : World) : option (option error * ReConn * World) :=
  match retry_loop fuel o b c (record (EvReset b) w) with
  | None => None
  | Some (s, c', w') => Some (stop_error s, c', w')
  end.

(** *** [reconnect.go] *)

(** [&pgconn.ConnectError{}] evaluated inside [reconnectable(err)]. *)
Definition new_ConnectError (err : error) : error :=
  Err KConnect (new_addr err) "" None [].

(** [func reconnectable(err error) bool] *)
Definition reconnectable (err : error) : bool :=
  if strings_Contains (Error err) "conn closed" then true
  else if pgconn_Timeout err then true
  else if errors_Is err (new_ConnectError err) then true
  else if pgconn_SafeToRetry err then true
  else false.

(** The closure handed to [backoff.Retry] in [Reconnect]. *)
Definition connect_once (ctx : Context) : Operation :=
  fun c w =>
    match pgx_Connect ctx (ConnString c) w with
    | (inl err, w') => (Some err, c, w')
    | (inr conn, w') => (None, set_Conn c (Some conn), w')
    end.

(** [func (c *ReConn) Reconnect(ctx context.Context) error] *)
Definition Reconnect (fuel : nat) (ctx : Context) (c : ReConn) (w : World)
  : run (option error) :=
  let '(c, w) :=
    match Conn c with
    | Some h => let '(_, w') := Conn_Close ctx h w in (set_Conn c None, w')
    | None => (c, w)
    end in
  if String.eqb (ConnString c) "" then Return (Some ErrNoConnString) c w
  else
    let c :=
      match Backoff c with
      | None => set_Backoff c (Some NewExponentialBackOff)
      | Some _ => c
      end in
    let b := match Backoff c with Some b => b | None => NewExponentialBackOff end in
    match backoff_Retry fuel (connect_once ctx) b c w with
    | None => Unfinished
    | Some (None, c, w) => Return None c w
    | Some (Some err, c, w) =>
        match errors_As KPermanent err with
        | Some pe => Return (PermanentError_Err pe) c w
        | None => Return None c w
        end
    end.

(** [func Connect(ctx, connString, bo)], returning a [*ReConn] and an
    [error]: the result holds
    the [*ReConn] returned ([None] when it is nil), the error and the world;
    there is no result while [Reconnect] is still looping. *)
Definition Connect (fuel : nat) (ctx : Context) (connString : string)
  (bo : option BackOff) (w : World)
  : option (option ReConn * option error * World) :=
  if String.eqb connString "" then Some (None, Some ErrNoConnString, w)
  else
    let c := mkReConn connString None bo in
    match Reconnect fuel ctx c w with
    | Return err c' w' => Some (Some c', err, w')
    | _ => None
    end.

(** [func (c *ReConn) checkConn(ctx context.Context) error] *)
Definition checkConn (fuel : nat) (ctx : Context) (c : ReConn) (w : World)
  : run (option error) :=
  match Conn c with
  | Some h =>
      if negb (Conn_IsClosed h w) then Return None c w
      else Reconnect fuel ctx c w
  | None => Reconnect fuel ctx c w
  end.

(** [fmt.Errorf("%w: %w, original error: %w", ErrReconnect, reconnectErr, err)]:
    a newly allocated [*fmt.wrapErrors] that unwraps to the three. *)
Definition reconnect_failed (reconnectErr err : error) : error :=
  Err KPlain
    (S (Nat.max (max_addr ErrReconnect)
          (Nat.max (max_addr reconnectErr) (max_addr err))))
    (Error ErrReconnect ++ ": " ++ Error reconnectErr
       ++ ", original error: " ++ Error err)
    None [ErrReconnect; reconnectErr; err].

(** Sequencing of calls on the receiver. *)
Definition bind {A B : Type} (m : run A) (k : A -> ReConn -> World -> run B)
  : run B :=
  match m with
  | Unfinished => Unfinished
  | NilDeref => NilDeref
  | Return a c w => k a c w
  end.

(** The driver's methods as the wrapper calls them, [c.Conn.Query(...)] and
    the like, on the pointer the receiver holds at that moment.  Calling a
    method of [*pgx.Conn] on a nil pointer is a call like any other; pgx
    dereferences the pointer at once and the goroutine panics. *)
Definition Conn_Query (ctx : Context) (sql : string) (args : list string)
  (c : ReConn) (w : World) : run (Rows * option error) :=
  match Conn c with
  | Some h =>
      Return (on_Query E (trace w) ctx h sql args) c
        (record (EvQuery ctx h sql args) w)
  | None => NilDeref
  end.

Definition Conn_QueryRow (ctx : Context) (sql : string) (args : list string)
  (c : ReConn) (w : World) : run Row :=
  match Conn c with
  | Some h =>
      Return (on_QueryRow E (trace w) ctx h sql args) c
        (record (EvQueryRow ctx h sql args) w)
  | None => NilDeref
  end.

Definition Conn_Exec (ctx : Context) (sql : string) (args : list string)
  (c : ReConn) (w : World) : run (CommandTag * option error) :=
  match Conn c with
  | Some h =>
      Return (on_Exec E (trace w) ctx h sql args) c
        (record (EvExec ctx h sql args) w)
  | None => NilDeref
  end.

Definition Conn_Ping (ctx : Context) (c : ReConn) (w : World)
  : run (option error) :=
  match Conn c with
  | Some h => Return (on_Ping E (trace w) ctx h) c (record (EvPing ctx h) w)
  | None => NilDeref
  end.

(** [func (c *ReConn) Query(ctx, sql, args...) (pgx.Rows, error)]; a nil
    [pgx.Rows] is [None]. *)
Definition Query (fuel : nat) (ctx : Context) (sql : string)
  (args : list string) (c : ReConn) (w : World)
  : run (option Rows * option error) :=
  bind (checkConn fuel ctx c w) (fun err c w =>
  match err with
  | Some err => Return (None, Some err) c w
  | None =>
      bind (Conn_Query ctx sql args c w) (fun '(rows, err) c w =>
      match err with
      | Some e =>
          if reconnectable e then
            bind (Reconnect fuel ctx c w) (fun reconnectErr c w =>
            match reconnectErr with
            | Some re => Return (None, Some (reconnect_failed re e)) c w
            | None =>
                bind (Conn_Query ctx sql args c w) (fun '(rows, err) c w =>
                Return (Some rows, err) c w)
            end)
          else Return (Some rows, err) c w
      | None => Return (Some rows, err) c w
      end)
  end).

(** [func (c *ReConn) QueryRow(ctx, sql, args...) (pgx.Row, error)] *)
Definition QueryRow (fuel : nat) (ctx : Context) (sql : string)
  (args : list string) (c : ReConn) (w : World)
  : run (option Row * option error) :=
  bind (checkConn fuel ctx c w) (fun err c w =>
  match err with
  | Some err => Return (None, Some err) c w
  | None =>
      bind (Conn_QueryRow ctx sql args c w) (fun row c w =>
      Return (Some row, None) c w)
  end).

(** [func (c *ReConn) Exec(ctx, sql, args...) (pgconn.CommandTag, error)];
    [pgconn.CommandTag{}] is the empty tag. *)
Definition Exec (fuel : nat) (ctx : Context) (sql : string)
  (args : list string) (c : ReConn) (w : World)
  : run (CommandTag * option error) :=
  bind (checkConn fuel ctx c w) (fun err c w =>
  match err with
  | Some err => Return (EmptyString, Some err) c w
  | None =>
      bind (Conn_Exec ctx sql args c w) (fun '(tag, err) c w =>
      match err with
      | Some e =>
          if reconnectable e then
            bind (Reconnect fuel ctx c w) (fun reconnectErr c w =>
            match reconnectErr with
            | Some re => Return (EmptyString, Some (reconnect_failed re e)) c w
            | None => Conn_Exec ctx sql args c w
            end)
          else Return (tag, err) c w
      | None => Return (tag, err) c w
      end)
  end).

(** [func (c *ReConn) Ping(ctx context.Context) error] *)
Definition Ping (fuel : nat) (ctx : Context) (c : ReConn) (w : World)
  : run (option error) :=
  bind (checkConn fuel ctx c w) (fun err c w =>
  match err with
  | Some err => Return (Some err) c w
  | None =>
      bind (Conn_Ping ctx c w) (fun err c w =>
      match err with
      | Some e =>
          if reconnectable e then
            bind (Reconnect fuel ctx c w) (fun reconnectErr c w =>
            match reconnectErr with
            | Some re => Return (Some (reconnect_failed re e)) c w
            | None => Conn_Ping ctx c w
            end)
          else Return err c w
      | None => Return err c w
      end)
  end).

(** [func (c *ReConn) Close(ctx context.Context) error] *)
Definition Close (ctx : Context) (c : ReConn) (w : World)
  : option error * ReConn * World :=
  match Conn c with
  | None => (None, c, w)
  | Some h =>
      if Conn_IsClosed h w then (None, c, w)
      else
        let '(err, w') := Conn_Close ctx h w in
        (err, set_Conn c None, w')
  end.

End Wrapper.

(** ** Observing the retry loop inside [Reconnect] *)

(** The receiver and the world when [Reconnect] enters [backoff.Retry]: the
    old handle closed and dropped, a default policy installed. *)
Definition Reconnect_start (E : Env) (ctx : Context) (c : ReConn) (w : World)
  : ReConn * World :=
  let '(c, w) :=
    match Conn c with
    | Some h => (set_Conn c None, snd (Conn_Close E ctx h w))
    | None => (c, w)
    end in
  (match Backoff c with
   | None => set_Backoff c (Some NewExponentialBackOff)
   | Some _ => c
   end, w).

(** The policy [Reconnect] retries with. *)
Definition Reconnect_policy (c : ReConn) : BackOff :=
  match Backoff c with Some b => b | None => NewExponentialBackOff end.

(** The loop as [Reconnect] runs it, and why it stopped. *)
Definition Reconnect_loop (E : Env) (fuel : nat) (ctx : Context)
  (c : ReConn) (w : World) : option (stop * ReConn * World) :=
  let '(c1, w1) := Reconnect_start E ctx c w in
  let b := Reconnect_policy c in
  retry_loop E fuel (connect_once E ctx) b c1 (record (EvReset b) w1).

(** Lines 92 to 99 of [reconnect.go], applied to what [Retry] returned. *)
Definition surfaced (err : option error) : option error :=
  match err with
  | None => None
  | Some err =>
      match errors_As KPermanent err with
      | Some pe => PermanentError_Err pe
      | None => None
      end
  end.

(** How many times the driver's close was called. *)
Fixpoint closes (tr : list event) : nat :=
  match tr with
  | [] => 0
  | EvClose _ _ :: tr' => S (closes tr')
  | _ :: tr' => closes tr'
  end.

(** How many calls of [Query], [QueryRow], [Exec] and [Ping] reached the
    driver. *)
Fixpoint driver_calls (tr : list event) : nat :=
  match tr with
  | [] => 0
  | (EvQuery _ _ _ _ | EvQueryRow _ _ _ _ | EvExec _ _ _ _ | EvPing _ _) :: tr' =>
      S (driver_calls tr')
  | _ :: tr' => driver_calls tr'
  end.

(** How many times [backoff.Retry] was entered: it resets its policy once. *)
Fixpoint resets (tr : list event) : nat :=
  match tr with
  | [] => 0
  | EvReset _ :: tr' => S (resets tr')
  | _ :: tr' => resets tr'
  end.

(** ** Scenarios *)

Module Scenario.

(** A driver on which every call succeeds and no context is ever done. *)
Definition healthy : Env :=
  mkEnv (fun _ _ _ => None) (fun _ _ _ => None) (fun _ _ => false)
        (fun _ _ _ _ _ => (7, None)) (fun _ _ _ _ _ => 8)
        (fun _ _ _ _ _ => ("SELECT 1", None)) (fun _ _ _ => None)
        (fun _ _ => Some 5) (fun _ _ => None).

(** [*pgconn.ConnectError] around a refused dial. *)
Definition dial_refused : error :=
  errors_New 11 "dial tcp 127.0.0.1:5432: connect: connection refused".
Definition connect_refused : error :=
  Err KConnect 10
    "failed to connect to `user=app database=app`: dial tcp 127.0.0.1:5432: connect: connection refused"
    None [dial_refused].

(** What pgx reports on a connection that went away. *)
Definition conn_closed : error := errors_New 12 "conn closed".

(** A statement the server rejects. *)
Definition syntax_error : error :=
  errors_New 13 "ERROR: syntax error at or near SELEC (SQLSTATE 42601)".

(** [&backoff.StopBackOff{}]: a policy whose [NextBackOff] is always [Stop]. *)
Definition StopBackOff : BackOff := mkBackOff 1 None.

(** The database is gone: calls on a handle report a closed connection,
    new connections are refused, the policy gives up at once. *)
Definition dead_db : Env :=
  mkEnv (fun _ _ _ => Some connect_refused) (fun _ _ _ => None)
        (fun _ _ => false)
        (fun _ _ _ _ _ => (0, Some conn_closed)) (fun _ _ _ _ _ => 0)
        (fun _ _ _ _ _ => ("", Some conn_closed))
        (fun _ _ _ => Some conn_closed)
        (fun _ _ => None) (fun _ _ => None).

(** The driver's connect error marked permanent twice over. *)
Definition marked_twice : error :=
  backoff_Permanent 21 (backoff_Permanent 22 dial_refused).
Definition twice_permanent : Env :=
  mkEnv (fun _ _ _ => Some marked_twice) (fun _ _ _ => None)
        (fun _ _ => false)
        (fun _ _ _ _ _ => (7, None)) (fun _ _ _ _ _ => 8)
        (fun _ _ _ _ _ => ("SELECT 1", None)) (fun _ _ _ => None)
        (fun _ _ => Some 5) (fun _ _ => None).

(** New connections are refused, the policy asks for a wait of 5, and
    every context is cancelled while the loop waits. *)
Definition cancelled_waiting : Env :=
  mkEnv (fun _ _ _ => Some connect_refused) (fun _ _ _ => None)
        (fun _ _ => false)
        (fun _ _ _ _ _ => (7, None)) (fun _ _ _ _ _ => 8)
        (fun _ _ _ _ _ => ("SELECT 1", None)) (fun _ _ _ => None)
        (fun _ _ => Some 5)
        (fun tr _ =>
           match List.last tr (EvReset NewExponentialBackOff) with
           | EvWait _ => Some Canceled
           | _ => None
           end).

(** The driver's connect error marked permanent once. *)
Definition marked_once : error := backoff_Permanent 21 dial_refused.
Definition once_permanent : Env :=
  mkEnv (fun _ _ _ => Some marked_once) (fun _ _ _ => None)
        (fun _ _ => false)
        (fun _ _ _ _ _ => (7, None)) (fun _ _ _ _ _ => 8)
        (fun _ _ _ _ _ => ("SELECT 1", None)) (fun _ _ _ => None)
        (fun _ _ => Some 5) (fun _ _ => None).

(** A policy made with [backoff.WithContext(_, ctx)] for context 0. *)
Definition with_ctx0 : BackOff := mkBackOff 2 (Some 0).

Definition no_world : World := mkWorld [] [].

(** The server rejects every statement; the connection itself is fine. *)
Definition rejecting : Env :=
  mkEnv (fun _ _ _ => None) (fun _ _ _ => None) (fun _ _ => false)
        (fun _ _ _ _ _ => (7, Some syntax_error)) (fun _ _ _ _ _ => 8)
        (fun _ _ _ _ _ => ("", Some syntax_error))
        (fun _ _ _ => Some syntax_error)
        (fun _ _ => None) (fun _ _ => None).

(** The connection behind handle 4 has dropped: calls on it report a closed
    connection, calls on any other handle succeed, and so do new
    connections. *)
Definition dropped : Env :=
  mkEnv (fun _ _ _ => None) (fun _ _ _ => None) (fun _ _ => false)
        (fun _ _ h _ _ => if Nat.eqb h 4 then (0, Some conn_closed) else (7, None))
        (fun _ _ _ _ _ => 8)
        (fun _ _ h _ _ =>
           if Nat.eqb h 4 then ("", Some conn_closed) else ("SELECT 1", None))
        (fun _ _ h => if Nat.eqb h 4 then Some conn_closed else None)
        (fun _ _ => None) (fun _ _ => None).

(** A receiver that holds live handle 4 and retries with [StopBackOff]. *)
Definition connected : ReConn := mkReConn "db" (Some 4) (Some StopBackOff).

(** A receiver that holds no handle yet. *)
Definition unconnected : ReConn := mkReConn "db" None (Some StopBackOff).

End Scenario.

(** ** Further observations *)

(** An error carries at most one permanent marker: none, or one whose inner
    error carries none. *)
Definition marked_at_most_once (err : error) : bool :=
  match errors_As KPermanent err with
  | Some pe =>
      match PermanentError_Err pe with
      | Some inner =>
          match errors_As KPermanent inner with
          | Some _ => false
          | None => true
          end
      | None => true
      end
  | None => true
  end.

(** What [pgx.Connect] can return to the closure of [Reconnect].  The
    closure hands the driver's error on as it is and marks nothing, and
    [pgx.Connect] is given no callback of the caller's; an error marked
    permanent inside an error already marked permanent is not among them. *)
Definition connect_errors_marked_at_most_once (E : Env) : Prop :=
  forall tr ctx target err,
    on_Connect E tr ctx target = Some err -> marked_at_most_once err = true.

Definition BackOff_eqb (a b : BackOff) : bool :=
  Nat.eqb (bo_id a) (bo_id b)
  && match bo_ctx a, bo_ctx b with
     | Some x, Some y => Nat.eqb x y
     | None, None => true
     | _, _ => false
     end.

(** The calls one [Reconnect] may make: closing the handle [old] it held,
    resetting and asking its policy [b], waiting, and connecting to
    [target] under the caller's [ctx]. *)
Definition reconnect_step (ctx : Context) (target : string) (b : BackOff)
  (old : option handle) (ev : event) : bool :=
  match ev with
  | EvConnect ctx' s => Nat.eqb ctx' ctx && String.eqb s target
  | EvClose ctx' h =>
      Nat.eqb ctx' ctx
      && match old with Some h0 => Nat.eqb h h0 | None => false end
  | EvReset b' | EvNextBackOff b' => BackOff_eqb b' b
  | EvWait _ => true
  | _ => false
  end.

(** The configuration of a receiver is kept from [c] to [c']: the same
    connection string, and the same policy once there is one. *)
Definition keeps_config (c c' : ReConn) : Prop :=
  ConnString c' = ConnString c
  /\ forall b, Backoff c = Some b -> Backoff c' = Some b.

(** The shape [Query], [Exec] and [Ping] share, over the driver method
    [call] they delegate to: health check, call, and for a failure that
    [reconnectable] accepts one [Reconnect] and one more call.  [fail]
    builds the result that carries an error of the wrapper, [done] the
    result that carries what the driver returned. *)
Definition with_reconnect {A B : Type} (E : Env) (fuel : nat) (ctx : Context)
  (call : ReConn -> World -> run (A * option error))
  (fail : error -> B) (done : A -> option error -> B)
  (c : ReConn) (w : World) : run B :=
  bind (checkConn E fuel ctx c w) (fun err c w =>
  match err with
  | Some err => Return (fail err) c w
  | None =>
      bind (call c w) (fun '(a, err) c w =>
      match err with
      | Some e =>
          if reconnectable e then
            bind (Reconnect E fuel ctx c w) (fun reconnectErr c w =>
            match reconnectErr with
            | Some re => Return (fail (reconnect_failed re e)) c w
            | None =>
                bind (call c w) (fun '(a, err) c w => Return (done a err) c w)
            end)
          else Return (done a err) c w
      | None => Return (done a err) c w
      end)
  end).

(** A method of the handle: when it returns, the receiver is untouched and
    the world has gained the one event of that call. *)
Definition driver_method {A : Type} (call : ReConn -> World -> run A) : Prop :=
  forall c w r c' w',
    call c w = Return r c' w' ->
    c' = c /\ (exists h, Conn c = Some h)
    /\ exists ev, w' = record ev w
                  /\ driver_calls [ev] = 1 /\ closes [ev] = 0 /\ resets [ev] = 0.

(** [Conn.Ping] seen as a method that returns a value and an error. *)
Definition Conn_Ping_pair (E : Env) (ctx : Context) (c : ReConn) (w : World)
  : run (unit * option error) :=
  bind (Conn_Ping E ctx c w) (fun err c w => Return (tt, err) c w).

(** What a call may have done between [(c, w)] and [(c', w')], with at most
    [nr] reconnects and [nc] calls of driver operations: the configuration
    is kept, closed handles stay closed, a handle the receiver held is
    still held or has been closed, and the counts are within bounds. *)
Definition moved (nr nc : nat) (c : ReConn) (w : World)
  (c' : ReConn) (w' : World) : Prop :=
  keeps_config c c'
  /\ incl (closed w) (closed w')
  /\ (forall h, Conn c = Some h -> Conn c' = Some h \/ In h (closed w'))
  /\ driver_calls (trace w') <= driver_calls (trace w) + nc
  /\ resets (trace w') <= resets (trace w) + nr
  /\ closes (trace w') <= closes (trace w) + nr.

(** * Properties *)

(** ** The classifier *)

Section Classifier.

(** Walking to a value of kind [k] reaches a value of that kind. *)
Lemma errors_As_kind (k : errKind) (e r : error) :
  errors_As k e = Some r -> kind_of r = k.
Proof.
  revert r. induction e as [k' a t s cs IH] using error_ind'.
  intros r. simpl.
  destruct (errKind_eqb k' k) eqn:Hk.
  - intros [= <-]. simpl. destruct k', k; simpl in Hk; congruence.
  - induction IH as [|c cs' Hc _ IHcs]; [discriminate|].
    destruct (errors_As k c) eqn:Hc'.
    + intros [= <-]. now apply Hc.
    + exact IHcs.
Qed.

(** An object allocated after [e] was built is not met on the walk from
    [e], and no [Is] method answers for a [*pgconn.ConnectError]. *)
Lemma errors_Is_fresh_ConnectError (e target : error) :
  kind_of target = KConnect ->
  max_addr e < addr_of target ->
  errors_Is e target = false.
Proof.
  intros Hkind.
  induction e as [k a t s cs IH] using error_ind'.
  intros Hlt. simpl in Hlt |- *.
  assert (Hsame : same_object (Err k a t s cs) target = false).
  { unfold same_object; simpl.
    destruct (Nat.eqb_spec a (addr_of target)); [lia|].
    now rewrite andb_false_r. }
  assert (Hmeth : Is_method (Err k a t s cs) target = false).
  { unfold Is_method; simpl. rewrite Hkind. now destruct k. }
  rewrite Hsame, Hmeth; simpl.
  clear Hsame Hmeth.
  assert (Hcs :
    (fix walk (l : list error) : nat :=
       match l with
       | [] => 0
       | c :: l' => Nat.max (max_addr c) (walk l')
       end) cs < addr_of target) by lia.
  clear Hlt.
  induction IH as [|c cs' Hc _ IHcs]; [reflexivity|].
  rewrite Hc by lia. simpl. apply IHcs. lia.
Qed.

(** The third test of [reconnectable] never fires. *)
Lemma reconnectable_Is_dead (err : error) :
  errors_Is err (new_ConnectError err) = false.
Proof.
  apply errors_Is_fresh_ConnectError; [reflexivity|].
  unfold new_ConnectError, new_addr; simpl. lia.
Qed.

(** What [reconnectable] computes. *)
Lemma reconnectable_eq (err : error) :
  reconnectable err =
  strings_Contains (Error err) "conn closed"
  || pgconn_Timeout err
  || pgconn_SafeToRetry err.
Proof.
  unfold reconnectable. rewrite reconnectable_Is_dead.
  destruct (strings_Contains (Error err) "conn closed"); [reflexivity|].
  destruct (pgconn_Timeout err); [reflexivity|].
  now destruct (pgconn_SafeToRetry err).
Qed.

End Classifier.

(** C3 (the classifier answers true iff the message says the connection is
    closed, or the driver calls the error a timeout, or the error is or
    wraps a connection-establishment failure, or the driver calls it safe
    to retry) fails on the code.  For the [*pgconn.ConnectError] of a
    refused dial, [errors.As] does find a [*pgconn.ConnectError], yet
    [reconnectable] answers false: [errors.Is] looks for the
    [&pgconn.ConnectError{}] allocated on the spot, which no error holds,
    so the answer never depends on the third test. *)
Theorem reconnectable_misses_ConnectError :
  errors_As KConnect Scenario.connect_refused = Some Scenario.connect_refused
  /\ reconnectable Scenario.connect_refused = false
  /\ forall err,
      reconnectable err =
      strings_Contains (Error err) "conn closed"
      || pgconn_Timeout err || pgconn_SafeToRetry err.
Proof.
  split; [reflexivity|]. split; [reflexivity|]. exact reconnectable_eq.
Qed.

(** ** Facts about the retry loop inside [Reconnect] *)

Section ReconnectFacts.

Variable E : Env.

(** [Reconnect] is its preparation, the loop, and lines 92 to 99. *)
Lemma Reconnect_eq (fuel : nat) (ctx : Context) (c : ReConn) (w : World) :
  ConnString c <> "" ->
  Reconnect E fuel ctx c w =
  match Reconnect_loop E fuel ctx c w with
  | None => Unfinished
  | Some (s, c', w') => Return (surfaced (stop_error s)) c' w'
  end.
Proof.
  intros Hs. apply String.eqb_neq in Hs.
  unfold Reconnect, Reconnect_loop, Reconnect_start, Reconnect_policy,
    backoff_Retry.
  destruct c as [cs [h|] [b|]]; simpl in *; rewrite Hs;
    match goal with
    | |- context [retry_loop ?e ?f ?o ?b ?c ?w] =>
        destruct (retry_loop e f o b c w) as [[[s c'] w']|]
    end; try reflexivity;
    unfold surfaced; destruct (stop_error s) as [err|]; try reflexivity;
    destruct (errors_As KPermanent err); reflexivity.
Qed.

Lemma Reconnect_empty (fuel : nat) (ctx : Context) (c : ReConn) (w : World) :
  ConnString c = "" ->
  Reconnect E fuel ctx c w =
  Return (Some ErrNoConnString) (set_Conn c None)
    (match Conn c with
     | Some h => snd (Conn_Close E ctx h w)
     | None => w
     end).
Proof.
  intros Hs. unfold Reconnect.
  destruct c as [cs [h|] b]; simpl in *; subst cs; reflexivity.
Qed.

(** The loop leaves through [Exhausted] only with an error that carries no
    permanent marker. *)
Lemma retry_loop_Exhausted (fuel : nat) (o : Operation) (b : BackOff)
  (c : ReConn) (w : World) (last : error) (c' : ReConn) (w' : World) :
  retry_loop E fuel o b c w = Some (Exhausted last, c', w') ->
  errors_As KPermanent last = None.
Proof.
  revert c w. induction fuel as [|fuel IH]; intros c w; simpl; [discriminate|].
  destruct (o c w) as [[[err|] c1] w1]; [|discriminate].
  destruct (errors_As KPermanent err) eqn:Has; [discriminate|].
  destruct (on_NextBackOff E (trace w1) b) as [next|].
  - destruct (policy_ctx_Err E b _); [discriminate|]. apply IH.
  - destruct (policy_ctx_Err E b _); [discriminate|].
    intros [= <- _ _]. exact Has.
Qed.

(** The loop leaves through [PermanentFailure] with a permanent marker. *)
Lemma retry_loop_Permanent (fuel : nat) (o : Operation) (b : BackOff)
  (c : ReConn) (w : World) (pe : error) (c' : ReConn) (w' : World) :
  retry_loop E fuel o b c w = Some (PermanentFailure pe, c', w') ->
  kind_of pe = KPermanent.
Proof.
  revert c w. induction fuel as [|fuel IH]; intros c w; simpl; [discriminate|].
  destruct (o c w) as [[[err|] c1] w1]; [|discriminate].
  destruct (errors_As KPermanent err) eqn:Has.
  - intros [= <- _ _]. eapply errors_As_kind; eassumption.
  - destruct (on_NextBackOff E (trace w1) b) as [next|].
    + destruct (policy_ctx_Err E b _); [discriminate|]. apply IH.
    + destruct (policy_ctx_Err E b _); discriminate.
Qed.

(** A policy without a context never stops the loop through cancellation. *)
Lemma retry_loop_Background (fuel : nat) (o : Operation) (b : BackOff)
  (c : ReConn) (w : World) (s : stop) (c' : ReConn) (w' : World) :
  bo_ctx b = None ->
  retry_loop E fuel o b c w = Some (s, c', w') ->
  forall ce, s <> CancelledAtStop ce /\ s <> CancelledInWait ce.
Proof.
  intros Hb. revert c w.
  induction fuel as [|fuel IH]; intros c w; simpl; [discriminate|].
  destruct (o c w) as [[[err|] c1] w1].
  - destruct (errors_As KPermanent err).
    + intros [= <- _ _] ce; split; discriminate.
    + unfold policy_ctx_Err; rewrite Hb.
      destruct (on_NextBackOff E (trace w1) b) as [next|].
      * apply IH.
      * intros [= <- _ _] ce; split; discriminate.
  - intros [= <- _ _] ce; split; discriminate.
Qed.

(** The connection closure stores a handle exactly when the loop leaves
    through [Connected]; the rest of the receiver is untouched. *)
Lemma retry_loop_connect (fuel : nat) (ctx : Context) (b : BackOff)
  (c : ReConn) (w : World) (s : stop) (c' : ReConn) (w' : World) :
  retry_loop E fuel (connect_once E ctx) b c w = Some (s, c', w') ->
  ConnString c' = ConnString c /\ Backoff c' = Backoff c
  /\ (s = Connected -> exists h, Conn c' = Some h)
  /\ (s <> Connected -> Conn c' = Conn c).
Proof.
  revert c w. induction fuel as [|fuel IH]; intros c w; simpl; [discriminate|].
  unfold connect_once at 1, pgx_Connect.
  destruct (on_Connect E (trace w) ctx (ConnString c)) as [err|].
  - destruct (errors_As KPermanent err).
    + intros [= <- <- _]. repeat split; try discriminate; reflexivity.
    + destruct (on_NextBackOff E _ b) as [next|].
      * destruct (policy_ctx_Err E b _).
        -- intros [= <- <- _]. repeat split; try discriminate; reflexivity.
        -- apply IH.
      * destruct (policy_ctx_Err E b _);
          intros [= <- <- _]; repeat split; try discriminate; reflexivity.
  - intros [= <- <- _]. simpl. repeat split; try congruence.
    intros _. eexists; reflexivity.
Qed.

(** More fuel does not change a finished loop. *)
Lemma retry_loop_more_fuel (fuel extra : nat) (o : Operation) (b : BackOff)
  (c : ReConn) (w : World) (r : stop * ReConn * World) :
  retry_loop E fuel o b c w = Some r ->
  retry_loop E (fuel + extra) o b c w = Some r.
Proof.
  revert c w. induction fuel as [|fuel IH]; intros c w; simpl; [discriminate|].
  destruct (o c w) as [[[err|] c1] w1]; [|trivial].
  destruct (errors_As KPermanent err); [trivial|].
  destruct (on_NextBackOff E (trace w1) b) as [next|]; [|trivial].
  destruct (policy_ctx_Err E b _); [trivial|]. apply IH.
Qed.

Lemma Reconnect_start_Conn (ctx : Context) (c : ReConn) (w : World) :
  Conn (fst (Reconnect_start E ctx c w)) = None
  /\ ConnString (fst (Reconnect_start E ctx c w)) = ConnString c.
Proof.
  unfold Reconnect_start. destruct c as [cs [h|] [b|]]; simpl; auto.
Qed.

(** The context errors carry no permanent marker. *)
Lemma ctx_error_plain (ce : ctxError) :
  errors_As KPermanent (ctx_error ce) = None.
Proof. destruct ce; reflexivity. Qed.

(** After a failure of the loop that is not a permanent one, lines 92 to
    99 find nothing to return. *)
Lemma surfaced_loop_failure (fuel : nat) (ctx : Context) (c : ReConn)
  (w : World) (s : stop) (c' : ReConn) (w' : World) :
  Reconnect_loop E fuel ctx c w = Some (s, c', w') ->
  (forall failure, s <> PermanentFailure failure) ->
  surfaced (stop_error s) = None.
Proof.
  intros Hloop Hnot.
  destruct s as [|failure|last|ce|ce]; simpl.
  - reflexivity.
  - now elim (Hnot failure).
  - unfold Reconnect_loop in Hloop.
    destruct (Reconnect_start E ctx c w) as [c1 w1].
    now rewrite (retry_loop_Exhausted _ _ _ _ _ _ _ _ Hloop).
  - now rewrite ctx_error_plain.
  - now rewrite ctx_error_plain.
Qed.

(** A [Reconnect] that has returned returns the same with more fuel. *)
Lemma Reconnect_more_fuel (fuel extra : nat) (ctx : Context) (c : ReConn)
  (w : World) (r : option error) (c' : ReConn) (w' : World) :
  Reconnect E fuel ctx c w = Return r c' w' ->
  Reconnect E (fuel + extra) ctx c w = Return r c' w'.
Proof.
  destruct (String.eqb_spec (ConnString c) "") as [Hs|Hs].
  - now rewrite !(Reconnect_empty _ _ _ _ Hs).
  - rewrite !(Reconnect_eq _ _ _ _ Hs). unfold Reconnect_loop.
    destruct (Reconnect_start E ctx c w) as [c1 w1].
    destruct (retry_loop E fuel _ _ c1 _) as [[[s c0] w0]|] eqn:Hloop;
      [|discriminate].
    now rewrite (retry_loop_more_fuel _ extra _ _ _ _ _ Hloop).
Qed.

End ReconnectFacts.

(** ** [Reconnect] and the failures of its retry loop *)

(** After the loop, [Reconnect] returns what lines 92 to 99 make of the
    error handed back: nothing after exhaustion or cancellation, and after
    a permanent failure whatever [errors.As] still finds marked in its
    inner error. *)
Lemma Reconnect_after_loop
  (E : Env) (fuel : nat) (ctx : Context) (c : ReConn) (w : World)
  (s : stop) (c' : ReConn) (w' : World) :
  ConnString c <> "" ->
  Reconnect_loop E fuel ctx c w = Some (s, c', w') ->
  Reconnect E fuel ctx c w =
  Return
    match s with
    | PermanentFailure pe =>
        match PermanentError_Err pe with
        | Some inner =>
            match errors_As KPermanent inner with
            | Some pe' => PermanentError_Err pe'
            | None => None
            end
        | None => None
        end
    | Connected | Exhausted _ | CancelledAtStop _ | CancelledInWait _ => None
    end c' w'.
Proof.
  intros Hs Hloop. rewrite (Reconnect_eq E fuel ctx c w Hs), Hloop.
  destruct s as [|pe|last|ce|ce]; try reflexivity;
    now rewrite (surfaced_loop_failure E fuel ctx c w _ c' w' Hloop).
Qed.

(** A permanent failure of the loop is the marker [errors.As] found in an
    error that [pgx.Connect] returned. *)
Lemma retry_loop_Permanent_source (E : Env) (fuel : nat) (ctx : Context)
  (b : BackOff) (c : ReConn) (w : World) (pe : error)
  (c' : ReConn) (w' : World) :
  retry_loop E fuel (connect_once E ctx) b c w = Some (PermanentFailure pe, c', w') ->
  exists tr err,
    on_Connect E tr ctx (ConnString c) = Some err
    /\ errors_As KPermanent err = Some pe.
Proof.
  revert w. induction fuel as [|fuel IH]; intros w; simpl; [discriminate|].
  unfold connect_once at 1, pgx_Connect.
  destruct (on_Connect E (trace w) ctx (ConnString c)) as [err|] eqn:Hc;
    [|discriminate].
  destruct (errors_As KPermanent err) as [pe0|] eqn:Has.
  - intros [= <- _ _]. now exists (trace w), err.
  - destruct (on_NextBackOff E _ b) as [next|].
    + destruct (policy_ctx_Err E b _); [discriminate|]. apply IH.
    + destruct (policy_ctx_Err E b _); discriminate.
Qed.

(** C1: whenever the retry loop of [Reconnect] stops on a failure marked
    permanent, [Reconnect] returns no error to its caller, and it returns
    none either when the loop stops because the policy gave up or because
    of cancellation.  The errors of [pgx.Connect] are taken as the driver
    and the closure produce them: marked permanent at most once. *)
Theorem Reconnect_suppresses_loop_failures
  (E : Env) (fuel : nat) (ctx : Context) (c : ReConn) (w : World)
  (s : stop) (c' : ReConn) (w' : World) :
  connect_errors_marked_at_most_once E ->
  ConnString c <> "" ->
  Reconnect_loop E fuel ctx c w = Some (s, c', w') ->
  (exists failure, s = PermanentFailure failure)
  \/ (exists last, s = Exhausted last)
  \/ (exists ce, s = CancelledAtStop ce \/ s = CancelledInWait ce) ->
  Reconnect E fuel ctx c w = Return None c' w'.
Proof.
  intros Hdriver Hs Hloop _.
  rewrite (Reconnect_after_loop E fuel ctx c w s c' w' Hs Hloop).
  destruct s as [|pe|last|ce|ce]; try reflexivity.
  unfold Reconnect_loop in Hloop.
  pose proof (Reconnect_start_Conn E ctx c w) as [_ Hcs].
  destruct (Reconnect_start E ctx c w) as [c1 w1]. simpl in Hcs.
  apply retry_loop_Permanent_source in Hloop as (tr & err & Hconn & Has).
  apply Hdriver in Hconn. unfold marked_at_most_once in Hconn.
  rewrite Has in Hconn.
  destruct (PermanentError_Err pe) as [inner|]; [|reflexivity].
  destruct (errors_As KPermanent inner); [discriminate|reflexivity].
Qed.

Lemma Reconnect_suppresses_loop_failures_witness :
  Reconnect Scenario.once_permanent 1 0 (mkReConn "db" None None)
    Scenario.no_world =
  Return None (mkReConn "db" None (Some NewExponentialBackOff))
    (mkWorld [] [EvReset NewExponentialBackOff; EvConnect 0 "db"]).
Proof.
  apply (Reconnect_suppresses_loop_failures Scenario.once_permanent 1 0
           (mkReConn "db" None None) Scenario.no_world
           (PermanentFailure Scenario.marked_once)).
  - intros tr ctx target err H. injection H as <-. reflexivity.
  - discriminate.
  - reflexivity.
  - left. exists Scenario.marked_once. reflexivity.
Defined.

(** C5, as stated (a cancellation that cuts the wait of the backoff loop
    short is what [Reconnect] reports), fails: with a policy that carries
    the caller's context, cancelled during the first wait, [Reconnect]
    returns no error at all. *)
Lemma cancellation_not_reported :
  ~ (forall (E : Env) (fuel : nat) (ctx : Context) (c : ReConn) (w : World)
            (ce : ctxError) (c' : ReConn) (w' : World),
        ConnString c <> "" ->
        bo_ctx (Reconnect_policy c) = Some ctx ->
        Reconnect_loop E fuel ctx c w = Some (CancelledInWait ce, c', w') ->
        exists e c'' w'', Reconnect E fuel ctx c w = Return (Some e) c'' w'').
Proof.
  intros H.
  destruct (H Scenario.cancelled_waiting 3 0
              (mkReConn "db" None (Some Scenario.with_ctx0))
              Scenario.no_world Canceled
              (mkReConn "db" None (Some Scenario.with_ctx0))
              (mkWorld []
                 [EvReset Scenario.with_ctx0; EvConnect 0 "db";
                  EvNextBackOff Scenario.with_ctx0; EvWait 5]))
    as (e & c'' & w'' & Hr).
  - discriminate.
  - reflexivity.
  - reflexivity.
  - vm_compute in Hr. discriminate.
Qed.

(** C5, amended: when cancellation stops the retry loop, during a wait or
    when the policy gives up, [Reconnect] returns no error and leaves the
    handle nil. *)
Theorem Reconnect_cancelled
  (E : Env) (fuel : nat) (ctx : Context) (c : ReConn) (w : World)
  (s : stop) (ce : ctxError) (c' : ReConn) (w' : World) :
  ConnString c <> "" ->
  s = CancelledInWait ce \/ s = CancelledAtStop ce ->
  Reconnect_loop E fuel ctx c w = Some (s, c', w') ->
  Reconnect E fuel ctx c w = Return None c' w' /\ Conn c' = None.
Proof.
  intros Hs Hce Hloop. split.
  - rewrite (Reconnect_eq E fuel ctx c w Hs), Hloop.
    rewrite (surfaced_loop_failure E fuel ctx c w s c' w' Hloop);
      [reflexivity|].
    destruct Hce; subst s; discriminate.
  - unfold Reconnect_loop in Hloop.
    pose proof (Reconnect_start_Conn E ctx c w) as [Hnil _].
    destruct (Reconnect_start E ctx c w) as [c1 w1]; simpl in Hnil.
    apply retry_loop_connect in Hloop as (_ & _ & _ & Hkeep).
    rewrite Hkeep, Hnil; [reflexivity|].
    destruct Hce; subst s; discriminate.
Qed.

Lemma Reconnect_cancelled_witness :
  Reconnect Scenario.cancelled_waiting 3 0
    (mkReConn "db" None (Some Scenario.with_ctx0)) Scenario.no_world =
  Return None (mkReConn "db" None (Some Scenario.with_ctx0))
    (mkWorld []
       [EvReset Scenario.with_ctx0; EvConnect 0 "db";
        EvNextBackOff Scenario.with_ctx0; EvWait 5])
  /\ Conn (mkReConn "db" None (Some Scenario.with_ctx0)) = None.
Proof.
  apply (Reconnect_cancelled Scenario.cancelled_waiting 3 0
           (mkReConn "db" None (Some Scenario.with_ctx0))
           Scenario.no_world (CancelledInWait Canceled) Canceled).
  - discriminate.
  - left; reflexivity.
  - reflexivity.
Defined.

(** C9: the only errors [Reconnect] returns are [ErrNoConnString], for an
    empty connection string, and the inner error of a permanent marker
    found in the error the loop handed back after a permanent failure; when
    the loop fails in any other way (the policy gave up, a context was
    cancelled) [Reconnect] returns no error. *)
Theorem Reconnect_errors
  (E : Env) (fuel : nat) (ctx : Context) (c : ReConn) (w : World) :
  (forall (e : error) (c' : ReConn) (w' : World),
      Reconnect E fuel ctx c w = Return (Some e) c' w' ->
      (ConnString c = "" /\ e = ErrNoConnString)
      \/ (exists failure inner pe,
             Reconnect_loop E fuel ctx c w = Some (PermanentFailure failure, c', w')
             /\ PermanentError_Err failure = Some inner
             /\ errors_As KPermanent inner = Some pe
             /\ kind_of pe = KPermanent
             /\ PermanentError_Err pe = Some e))
  /\ (forall (s : stop) (c' : ReConn) (w' : World),
         ConnString c <> "" ->
         Reconnect_loop E fuel ctx c w = Some (s, c', w') ->
         (forall failure, s <> PermanentFailure failure) ->
         Reconnect E fuel ctx c w = Return None c' w').
Proof.
  split.
  - intros e c' w' Hr.
    destruct (String.eqb_spec (ConnString c) "") as [Hs|Hs].
    + left. split; [exact Hs|].
      rewrite (Reconnect_empty E fuel ctx c w Hs) in Hr. congruence.
    + right. rewrite (Reconnect_eq E fuel ctx c w Hs) in Hr.
      destruct (Reconnect_loop E fuel ctx c w) as [[[s c0] w0]|] eqn:Hloop;
        [|discriminate].
      injection Hr as Hsurf <- <-.
      destruct s as [|failure|last|ce|ce];
        try (rewrite (surfaced_loop_failure E fuel ctx c w _ c0 w0 Hloop)
               in Hsurf; discriminate).
      simpl in Hsurf.
      destruct (PermanentError_Err failure) as [inner|] eqn:Hinner;
        [|discriminate].
      simpl in Hsurf.
      destruct (errors_As KPermanent inner) as [pe|] eqn:Hpe; [|discriminate].
      exists failure, inner, pe. repeat split; try reflexivity; auto.
      eapply errors_As_kind; eassumption.
  - intros s c' w' Hs Hloop Hnot.
    rewrite (Reconnect_eq E fuel ctx c w Hs), Hloop.
    now rewrite (surfaced_loop_failure E fuel ctx c w s c' w' Hloop Hnot).
Qed.

Lemma Reconnect_errors_witness :
  (ConnString (mkReConn "db" None None) = ""
   /\ Scenario.dial_refused = ErrNoConnString)
  \/ (exists failure inner pe,
         Reconnect_loop Scenario.twice_permanent 1 0 (mkReConn "db" None None)
           Scenario.no_world =
         Some (PermanentFailure failure,
               mkReConn "db" None (Some NewExponentialBackOff),
               mkWorld [] [EvReset NewExponentialBackOff; EvConnect 0 "db"])
         /\ PermanentError_Err failure = Some inner
         /\ errors_As KPermanent inner = Some pe
         /\ kind_of pe = KPermanent
         /\ PermanentError_Err pe = Some Scenario.dial_refused).
Proof.
  apply (proj1 (Reconnect_errors Scenario.twice_permanent 1 0
                  (mkReConn "db" None None) Scenario.no_world)).
  reflexivity.
Defined.

(** ** Empty connection strings *)

(** C6, as stated ([Reconnect] with an empty connection string makes no
    call to the driver and touches no handle), fails: a receiver that holds
    a handle has it closed by the driver, and dropped, before the string is
    looked at. *)
Lemma Reconnect_empty_target_closes_handle :
  ~ (forall (E : Env) (fuel : nat) (ctx : Context) (c : ReConn) (w : World),
        ConnString c = "" ->
        exists c' w',
          Reconnect E fuel ctx c w = Return (Some ErrNoConnString) c' w'
          /\ trace w' = trace w).
Proof.
  intros H.
  destruct (H Scenario.healthy 1 0 (mkReConn "" (Some 4) None)
              Scenario.no_world eq_refl) as (c' & w' & Hr & Htr).
  vm_compute in Hr. injection Hr as _ <-. discriminate.
Qed.

(** C6, amended: with an empty connection string [Connect] fails with
    [ErrNoConnString] and the driver is not called; [Reconnect] fails with
    [ErrNoConnString] and attempts no connection, after the handle it held,
    if any, was closed through the driver and dropped. *)
Theorem empty_target
  (E : Env) (fuel : nat) (ctx : Context) (bo : option BackOff)
  (conn : option handle) (w : World) :
  Connect E fuel ctx "" bo w = Some (None, Some ErrNoConnString, w)
  /\ exists w',
      Reconnect E fuel ctx (mkReConn "" conn bo) w
      = Return (Some ErrNoConnString) (mkReConn "" None bo) w'
      /\ trace w' = (trace w ++ match conn with
                                | Some h => [EvClose ctx h]
                                | None => []
                                end)%list.
Proof.
  split; [reflexivity|].
  destruct conn as [h|]; eexists; split; try reflexivity.
  simpl. now rewrite app_nil_r.
Qed.

(** ** [Close] *)

Lemma closes_app (tr tr' : list event) :
  closes (tr ++ tr') = closes tr + closes tr'.
Proof.
  induction tr as [|ev tr IH]; simpl; [reflexivity|].
  destruct ev; simpl; rewrite IH; reflexivity.
Qed.

(** C7: without a handle, or with a handle known to be closed, [Close] does
    nothing and returns no error; otherwise it calls the driver's close
    once, drops the handle whatever the driver answered, and returns that
    answer.  A second [Close] right after returns no error and changes
    nothing, so the driver's close is not called again. *)
Theorem Close_idempotent (E : Env) (ctx : Context) (c : ReConn) (w : World) :
  let '(err1, c1, w1) := Close E ctx c w in
  let '(err2, c2, w2) := Close E ctx c1 w1 in
  match Conn c with
  | None => err1 = None /\ c1 = c /\ w1 = w
  | Some h =>
      if Conn_IsClosed E h w then err1 = None /\ c1 = c /\ w1 = w
      else err1 = on_Close E (trace w) ctx h
           /\ c1 = set_Conn c None
           /\ trace w1 = (trace w ++ [EvClose ctx h])%list
           /\ closes (trace w1) = S (closes (trace w))
  end
  /\ err2 = None /\ c2 = c1 /\ w2 = w1
  /\ closes (trace w2) <= S (closes (trace w)).
Proof.
  unfold Close.
  destruct (Conn c) as [h|] eqn:Hc.
  - destruct (Conn_IsClosed E h w) eqn:Hclosed; simpl.
    + rewrite Hc, Hclosed. repeat split; lia.
    + repeat split. rewrite closes_app; simpl; lia.
      rewrite closes_app; simpl; lia.
  - rewrite Hc. repeat split; lia.
Qed.


(** ** Counting calls *)

Section Counting.

Variable E : Env.

Lemma driver_calls_app (tr tr' : list event) :
  driver_calls (tr ++ tr') = driver_calls tr + driver_calls tr'.
Proof.
  induction tr as [|ev tr IH]; simpl; [reflexivity|].
  destruct ev; simpl; rewrite IH; reflexivity.
Qed.

Lemma resets_app (tr tr' : list event) :
  resets (tr ++ tr') = resets tr + resets tr'.
Proof.
  induction tr as [|ev tr IH]; simpl; [reflexivity|].
  destruct ev; simpl; rewrite IH; reflexivity.
Qed.

(** The retry loop only connects, asks the policy and waits. *)
Lemma retry_loop_counts (fuel : nat) (ctx : Context) (b : BackOff)
  (c : ReConn) (w : World) (s : stop) (c' : ReConn) (w' : World) :
  retry_loop E fuel (connect_once E ctx) b c w = Some (s, c', w') ->
  driver_calls (trace w') = driver_calls (trace w)
  /\ resets (trace w') = resets (trace w)
  /\ closes (trace w') = closes (trace w).
Proof.
  revert c w. induction fuel as [|fuel IH]; intros c w; simpl; [discriminate|].
  unfold connect_once at 1, pgx_Connect.
  destruct (on_Connect E (trace w) ctx (ConnString c)) as [err|].
  - destruct (errors_As KPermanent err).
    + intros [= _ _ <-]. simpl.
      rewrite driver_calls_app, resets_app, closes_app; simpl. lia.
    + destruct (on_NextBackOff E _ b) as [next|].
      * destruct (policy_ctx_Err E b _).
        -- intros [= _ _ <-]. simpl.
           rewrite !driver_calls_app, !resets_app, !closes_app; simpl. lia.
        -- intros Hloop. apply IH in Hloop. simpl in Hloop.
           rewrite !driver_calls_app, !resets_app, !closes_app in Hloop.
           simpl in Hloop. lia.
      * destruct (policy_ctx_Err E b _); intros [= _ _ <-]; simpl;
          rewrite !driver_calls_app, !resets_app, !closes_app; simpl; lia.
  - intros [= _ _ <-]. simpl.
    rewrite driver_calls_app, resets_app, closes_app; simpl. lia.
Qed.

(** One [Reconnect] reaches the driver's operations not at all and enters
    [backoff.Retry] at most once. *)
Lemma Reconnect_counts (fuel : nat) (ctx : Context) (c : ReConn) (w : World)
  (r : option error) (c' : ReConn) (w' : World) :
  Reconnect E fuel ctx c w = Return r c' w' ->
  driver_calls (trace w') = driver_calls (trace w)
  /\ resets (trace w') =
     resets (trace w) + (if String.eqb (ConnString c) "" then 0 else 1).
Proof.
  destruct (String.eqb_spec (ConnString c) "") as [Hs|Hs].
  - rewrite (Reconnect_empty E fuel ctx c w Hs). intros [= _ _ <-].
    destruct (Conn c); simpl;
      rewrite ?driver_calls_app, ?resets_app; simpl; lia.
  - rewrite (Reconnect_eq E fuel ctx c w Hs). unfold Reconnect_loop.
    unfold Reconnect_start.
    destruct (Conn c) as [h|]; simpl;
      match goal with
      | |- context [retry_loop ?e ?f ?o ?b ?c ?w] =>
          destruct (retry_loop e f o b c w) as [[[s c0] w0]|] eqn:Hloop
      end; try discriminate;
      intros [= _ _ <-];
      apply retry_loop_counts in Hloop; simpl in Hloop;
      rewrite ?driver_calls_app, ?resets_app in Hloop; simpl in Hloop; lia.
Qed.

End Counting.

(** ** The operations *)

Section Operations.

Variable E : Env.

(** Neither [Reconnect] nor the health check calls a method of the handle
    without having tested it. *)
Lemma Reconnect_no_NilDeref (fuel : nat) (ctx : Context) (c : ReConn) (w : World) :
  Reconnect E fuel ctx c w <> NilDeref.
Proof.
  unfold Reconnect.
  destruct (Conn c); simpl;
    match goal with |- context [String.eqb ?a ?b] => destruct (String.eqb a b) end;
    try discriminate;
    match goal with
    | |- context [backoff_Retry ?e ?f ?o ?b ?c ?w] =>
        destruct (backoff_Retry e f o b c w) as [[[[err|] c'] w']|]
    end; try discriminate;
    destruct (errors_As KPermanent err); discriminate.
Qed.

Lemma checkConn_no_NilDeref (fuel : nat) (ctx : Context) (c : ReConn) (w : World) :
  checkConn E fuel ctx c w <> NilDeref.
Proof.
  unfold checkConn.
  destruct (Conn c) as [h|]; [destruct (negb (Conn_IsClosed E h w))|];
    try discriminate; apply Reconnect_no_NilDeref.
Qed.

(** A value is found by [errors.Is] in itself. *)
Lemma errors_Is_self (e : error) : errors_Is e e = true.
Proof.
  destruct e as [k a t s cs]. simpl. unfold same_object. simpl.
  rewrite Nat.eqb_refl. now destruct k.
Qed.

(** The composite error unwraps to [ErrReconnect], the reconnect failure
    and the original failure, and [errors.Is] finds each of them. *)
Lemma reconnect_failed_identifies (re e : error) :
  Unwrap (reconnect_failed re e) = [ErrReconnect; re; e]
  /\ errors_Is (reconnect_failed re e) ErrReconnect = true
  /\ errors_Is (reconnect_failed re e) re = true
  /\ errors_Is (reconnect_failed re e) e = true.
Proof.
  split; [reflexivity|].
  unfold reconnect_failed.
  cbn [errors_Is]. rewrite (errors_Is_self re), (errors_Is_self e).
  rewrite !orb_true_r. auto.
Qed.

End Operations.

(** C2 fails on the code when the [Reconnect] that follows a retryable
    failure cannot connect.  The database is gone and the policy gives up:
    the health check passes on the live handle, the driver call reports a
    closed connection, which [reconnectable] accepts, and the one
    [Reconnect] closes the handle, fails to connect and returns no error,
    leaving the handle nil.  The call is then issued again on that nil
    handle and panics, where the claim has it issued on a new handle and
    its outcome returned.  This holds for [Query], [Exec] and [Ping] and
    for every amount of fuel that lets the loop run. *)
Theorem retry_after_failed_reconnect_panics (fuel : nat) :
  checkConn Scenario.dead_db (S fuel) 0 Scenario.connected Scenario.no_world
  = Return None Scenario.connected Scenario.no_world
  /\ Conn_Query Scenario.dead_db 0 "SELECT 1" [] Scenario.connected
       Scenario.no_world
     = Return (0, Some Scenario.conn_closed) Scenario.connected
         (mkWorld [] [EvQuery 0 4 "SELECT 1" []])
  /\ reconnectable Scenario.conn_closed = true
  /\ Reconnect Scenario.dead_db (S fuel) 0 Scenario.connected
       (mkWorld [] [EvQuery 0 4 "SELECT 1" []])
     = Return None Scenario.unconnected
         (mkWorld [4]
            [EvQuery 0 4 "SELECT 1" []; EvClose 0 4;
             EvReset Scenario.StopBackOff; EvConnect 0 "db";
             EvNextBackOff Scenario.StopBackOff])
  /\ Query Scenario.dead_db (S fuel) 0 "SELECT 1" [] Scenario.connected
       Scenario.no_world = NilDeref
  /\ Exec Scenario.dead_db (S fuel) 0 "SELECT 1" [] Scenario.connected
       Scenario.no_world = NilDeref
  /\ Ping Scenario.dead_db (S fuel) 0 Scenario.connected Scenario.no_world
     = NilDeref.
Proof.
  split; [reflexivity|]. split; [reflexivity|]. split; [reflexivity|].
  split; [reflexivity|]. split; [reflexivity|]. split; reflexivity.
Qed.

(** C4: when the driver call of [Query], [Exec] or [Ping] fails with an
    error that [reconnectable] rejects, the operation returns what the
    driver returned, error included, and does nothing more: the receiver
    is as the health check left it and the world has gained that one call
    only. *)
Theorem nonretryable_failure_passes_through
  (E : Env) (fuel : nat) (ctx : Context) (c : ReConn) (w : World)
  (c1 : ReConn) (w1 : World) :
  checkConn E fuel ctx c w = Return None c1 w1 ->
  (forall sql args rows e c2 w2,
      Conn_Query E ctx sql args c1 w1 = Return (rows, Some e) c2 w2 ->
      reconnectable e = false ->
      Query E fuel ctx sql args c w = Return (Some rows, Some e) c2 w2
      /\ c2 = c1
      /\ exists h, Conn c1 = Some h
                   /\ w2 = mkWorld (closed w1)
                             (trace w1 ++ [EvQuery ctx h sql args]))
  /\ (forall sql args tag e c2 w2,
         Conn_Exec E ctx sql args c1 w1 = Return (tag, Some e) c2 w2 ->
         reconnectable e = false ->
         Exec E fuel ctx sql args c w = Return (tag, Some e) c2 w2
         /\ c2 = c1
         /\ exists h, Conn c1 = Some h
                      /\ w2 = mkWorld (closed w1)
                                (trace w1 ++ [EvExec ctx h sql args]))
  /\ (forall e c2 w2,
         Conn_Ping E ctx c1 w1 = Return (Some e) c2 w2 ->
         reconnectable e = false ->
         Ping E fuel ctx c w = Return (Some e) c2 w2
         /\ c2 = c1
         /\ exists h, Conn c1 = Some h
                      /\ w2 = mkWorld (closed w1) (trace w1 ++ [EvPing ctx h])).
Proof.
  intros Hcheck. split; [|split].
  - intros sql args rows e c2 w2 Hcall Hno. split.
    + unfold Query. rewrite Hcheck; simpl. rewrite Hcall; simpl.
      now rewrite Hno.
    + unfold Conn_Query in Hcall. destruct (Conn c1) as [h|]; [|discriminate].
      injection Hcall as _ <- <-. split; [reflexivity|].
      exists h. split; reflexivity.
  - intros sql args tag e c2 w2 Hcall Hno. split.
    + unfold Exec. rewrite Hcheck; simpl. rewrite Hcall; simpl.
      now rewrite Hno.
    + unfold Conn_Exec in Hcall. destruct (Conn c1) as [h|]; [|discriminate].
      injection Hcall as _ <- <-. split; [reflexivity|].
      exists h. split; reflexivity.
  - intros e c2 w2 Hcall Hno. split.
    + unfold Ping. rewrite Hcheck; simpl. rewrite Hcall; simpl.
      now rewrite Hno.
    + unfold Conn_Ping in Hcall. destruct (Conn c1) as [h|]; [|discriminate].
      injection Hcall as _ <- <-. split; [reflexivity|].
      exists h. split; reflexivity.
Qed.

Lemma nonretryable_failure_passes_through_witness :
  Query Scenario.rejecting 1 0 "SELEC 1" [] Scenario.connected Scenario.no_world
  = Return (Some 7, Some Scenario.syntax_error) Scenario.connected
      (mkWorld [] [EvQuery 0 4 "SELEC 1" []])
  /\ Exec Scenario.rejecting 1 0 "SELEC 1" [] Scenario.connected Scenario.no_world
     = Return ("", Some Scenario.syntax_error) Scenario.connected
         (mkWorld [] [EvExec 0 4 "SELEC 1" []])
  /\ Ping Scenario.rejecting 1 0 Scenario.connected Scenario.no_world
     = Return (Some Scenario.syntax_error) Scenario.connected
         (mkWorld [] [EvPing 0 4]).
Proof.
  destruct (nonretryable_failure_passes_through Scenario.rejecting 1 0
              Scenario.connected Scenario.no_world
              Scenario.connected Scenario.no_world eq_refl)
    as (HQ & HE & HP).
  split; [|split].
  - apply (HQ "SELEC 1" [] 7 Scenario.syntax_error); reflexivity.
  - apply (HE "SELEC 1" [] "" Scenario.syntax_error); reflexivity.
  - apply (HP Scenario.syntax_error); reflexivity.
Defined.

(** C8 fails on the code when the health check cannot connect.  The
    database is gone, the receiver holds no handle and the policy gives up:
    the [Reconnect] of the health check fails to connect and returns no
    error, so the health check passes with the handle still nil, and the
    driver's single-row query is called on that nil handle and panics,
    where the claim has the driver's row returned with a nil error.  This
    holds for every amount of fuel that lets the loop run. *)
Theorem QueryRow_panics_on_nil_handle (fuel : nat) :
  checkConn Scenario.dead_db (S fuel) 0 Scenario.unconnected Scenario.no_world
  = Return None Scenario.unconnected
      (mkWorld []
         [EvReset Scenario.StopBackOff; EvConnect 0 "db";
          EvNextBackOff Scenario.StopBackOff])
  /\ Conn Scenario.unconnected = None
  /\ QueryRow Scenario.dead_db (S fuel) 0 "SELECT 1" [] Scenario.unconnected
       Scenario.no_world = NilDeref.
Proof.
  split; [reflexivity|]. split; reflexivity.
Qed.

(** What does hold of the health check: when it returns no error and the
    handle is nil, the retry loop of its [Reconnect] has failed. *)
Lemma checkConn_nil_handle
  (E : Env) (fuel : nat) (ctx : Context) (c : ReConn) (w : World)
  (c' : ReConn) (w' : World) :
  checkConn E fuel ctx c w = Return None c' w' ->
  Conn c' = None ->
  ConnString c <> ""
  /\ exists s, Reconnect_loop E fuel ctx c w = Some (s, c', w')
               /\ s <> Connected.
Proof.
  intros Hcheck Hnil.
  assert (Hre : Reconnect E fuel ctx c w = Return None c' w').
  { unfold checkConn in Hcheck.
    destruct (Conn c) as [h|] eqn:Hc; [|exact Hcheck].
    destruct (negb (Conn_IsClosed E h w)); [|exact Hcheck].
    injection Hcheck as <- <-. congruence. }
  destruct (String.eqb_spec (ConnString c) "") as [Hs|Hs].
  { rewrite (Reconnect_empty E fuel ctx c w Hs) in Hre. discriminate. }
  split; [exact Hs|].
  rewrite (Reconnect_eq E fuel ctx c w Hs) in Hre.
  destruct (Reconnect_loop E fuel ctx c w) as [[[s c0] w0]|] eqn:Hloop;
    [|discriminate].
  injection Hre as _ <- <-.
  exists s. split; [reflexivity|].
  intros ->. unfold Reconnect_loop in Hloop.
  destruct (Reconnect_start E ctx c w) as [cs ws].
  apply retry_loop_connect in Hloop as (_ & _ & Hconn & _).
  destruct (Hconn eq_refl) as [h Hh]. congruence.
Qed.

(** C10 fails on the code: with the database gone and a policy that gives
    up, the health check of a receiver without a handle returns no error
    although the handle is still nil, and each operation goes on to call
    the driver on the nil handle.  A receiver that held a live handle ends
    the same way one step later: the first call reports the closed
    connection, the [Reconnect] that follows returns no error without a
    handle, and the second call is made on nil. *)
Theorem health_check_passes_with_nil_handle :
  checkConn Scenario.dead_db 1 0 Scenario.unconnected Scenario.no_world
  = Return None Scenario.unconnected
      (mkWorld []
         [EvReset Scenario.StopBackOff; EvConnect 0 "db";
          EvNextBackOff Scenario.StopBackOff])
  /\ Conn Scenario.unconnected = None
  /\ Query Scenario.dead_db 1 0 "SELECT 1" [] Scenario.unconnected
       Scenario.no_world = NilDeref
  /\ QueryRow Scenario.dead_db 1 0 "SELECT 1" [] Scenario.unconnected
       Scenario.no_world = NilDeref
  /\ Exec Scenario.dead_db 1 0 "SELECT 1" [] Scenario.unconnected
       Scenario.no_world = NilDeref
  /\ Ping Scenario.dead_db 1 0 Scenario.unconnected Scenario.no_world
     = NilDeref
  /\ Query Scenario.dead_db 1 0 "SELECT 1" [] Scenario.connected
       Scenario.no_world = NilDeref
  /\ Exec Scenario.dead_db 1 0 "SELECT 1" [] Scenario.connected
       Scenario.no_world = NilDeref
  /\ Ping Scenario.dead_db 1 0 Scenario.connected Scenario.no_world
     = NilDeref.
Proof. repeat (split; [vm_compute; reflexivity|]). vm_compute; reflexivity. Qed.

(** * Further properties of [reconnect.go] *)

Section MoreReconnect.

Variable E : Env.

(** The retry loop does not touch the set of closed handles. *)
Lemma retry_loop_closed (fuel : nat) (ctx : Context) (b : BackOff)
  (c : ReConn) (w : World) (s : stop) (c' : ReConn) (w' : World) :
  retry_loop E fuel (connect_once E ctx) b c w = Some (s, c', w') ->
  closed w' = closed w.
Proof.
  revert c w. induction fuel as [|fuel IH]; intros c w; simpl; [discriminate|].
  unfold connect_once at 1, pgx_Connect.
  destruct (on_Connect E (trace w) ctx (ConnString c)) as [err|].
  - destruct (errors_As KPermanent err).
    + now intros [= _ _ <-].
    + destruct (on_NextBackOff E _ b) as [next|].
      * destruct (policy_ctx_Err E b _).
        -- now intros [= _ _ <-].
        -- intros Hloop. now apply IH in Hloop.
      * destruct (policy_ctx_Err E b _); now intros [= _ _ <-].
  - now intros [= _ _ <-].
Qed.

(** What one [Reconnect] does to the closed handles and to the count of
    driver closes. *)
Lemma Reconnect_closed (fuel : nat) (ctx : Context) (c : ReConn) (w : World)
  (r : option error) (c' : ReConn) (w' : World) :
  Reconnect E fuel ctx c w = Return r c' w' ->
  closed w' = match Conn c with Some h => h :: closed w | None => closed w end
  /\ closes (trace w') = closes (trace w) + match Conn c with Some _ => 1 | None => 0 end.
Proof.
  destruct (String.eqb_spec (ConnString c) "") as [Hs|Hs].
  - rewrite (Reconnect_empty E fuel ctx c w Hs). intros [= _ _ <-].
    destruct (Conn c); simpl; rewrite ?closes_app; simpl; split; auto; lia.
  - rewrite (Reconnect_eq E fuel ctx c w Hs). unfold Reconnect_loop.
    unfold Reconnect_start.
    destruct (Conn c) as [h|]; simpl;
      match goal with
      | |- context [retry_loop ?e ?f ?o ?b ?c ?w] =>
          destruct (retry_loop e f o b c w) as [[[s c0] w0]|] eqn:Hloop
      end; try discriminate;
      intros [= _ _ <-];
      pose proof (retry_loop_closed _ _ _ _ _ _ _ _ Hloop) as Hcl;
      apply retry_loop_counts in Hloop; simpl in Hloop, Hcl;
      rewrite ?closes_app in Hloop; simpl in Hloop; split; auto; lia.
Qed.

(** The receiver after one [Reconnect]. *)
Lemma Reconnect_receiver (fuel : nat) (ctx : Context) (c : ReConn) (w : World)
  (r : option error) (c' : ReConn) (w' : World) :
  Reconnect E fuel ctx c w = Return r c' w' ->
  ConnString c' = ConnString c
  /\ Backoff c' = (if String.eqb (ConnString c) "" then Backoff c
                   else Some (Reconnect_policy c))
  /\ (forall e, r = Some e -> Conn c' = None).
Proof.
  destruct (String.eqb_spec (ConnString c) "") as [Hs|Hs].
  - rewrite (Reconnect_empty E fuel ctx c w Hs). intros [= _ <- _].
    simpl. auto.
  - rewrite (Reconnect_eq E fuel ctx c w Hs). unfold Reconnect_loop.
    pose proof (Reconnect_start_Conn E ctx c w) as [Hnil Hstr].
    assert (Hbo : Backoff (fst (Reconnect_start E ctx c w))
                  = Some (Reconnect_policy c)).
    { unfold Reconnect_start, Reconnect_policy.
      destruct c as [cs [h|] [b|]]; reflexivity. }
    destruct (Reconnect_start E ctx c w) as [c1 w1]; simpl in *.
    destruct (retry_loop E fuel _ _ c1 _) as [[[s c0] w0]|] eqn:Hloop;
      [|discriminate].
    intros [= Hr <- _].
    apply retry_loop_connect in Hloop as (Hcs & Hb & _ & Hkeep).
    repeat split; try congruence.
    intros e He. rewrite Hkeep; [exact Hnil|].
    intros ->. subst r. discriminate.
Qed.

End MoreReconnect.

(** X1: whenever [Reconnect] returns an error the receiver holds no handle;
    with a connection string, the receiver holds a handle afterwards
    exactly when the retry loop connected. *)
Theorem Reconnect_handle_after
  (E : Env) (fuel : nat) (ctx : Context) (c : ReConn) (w : World)
  (r : option error) (c' : ReConn) (w' : World) :
  Reconnect E fuel ctx c w = Return r c' w' ->
  (forall e, r = Some e -> Conn c' = None)
  /\ (ConnString c <> "" ->
      (Conn c' <> None <->
       Reconnect_loop E fuel ctx c w = Some (Connected, c', w'))).
Proof.
  intros Hre. split; [eapply Reconnect_receiver; eassumption|].
  intros Hs. rewrite (Reconnect_eq E fuel ctx c w Hs) in Hre.
  destruct (Reconnect_loop E fuel ctx c w) as [[[s c0] w0]|] eqn:Hloop;
    [|discriminate].
  injection Hre as _ <- <-.
  unfold Reconnect_loop in Hloop.
  pose proof (Reconnect_start_Conn E ctx c w) as [Hnil _].
  destruct (Reconnect_start E ctx c w) as [c1 w1]; simpl in Hnil.
  apply retry_loop_connect in Hloop as (_ & _ & Hconn & Hkeep).
  split.
  - intros Hh. destruct s; try reflexivity;
      (elim Hh; rewrite Hkeep; [exact Hnil|discriminate]).
  - intros [= ->]. destruct (Hconn eq_refl) as [h Hh]. congruence.
Qed.

Lemma Reconnect_handle_after_witness :
  (forall e, @None error = Some e ->
     Conn (mkReConn "db" (Some 2) (Some Scenario.StopBackOff)) = None)
  /\ (ConnString Scenario.connected <> "" ->
      (Conn (mkReConn "db" (Some 2) (Some Scenario.StopBackOff)) <> None <->
       Reconnect_loop Scenario.healthy 1 0 Scenario.connected Scenario.no_world
       = Some (Connected, mkReConn "db" (Some 2) (Some Scenario.StopBackOff),
               mkWorld [4]
                 [EvClose 0 4; EvReset Scenario.StopBackOff; EvConnect 0 "db"]))).
Proof.
  apply (Reconnect_handle_after Scenario.healthy 1 0 Scenario.connected
           Scenario.no_world None).
  reflexivity.
Defined.

(** X2: one [Reconnect] calls the driver's close exactly once when the
    receiver held a handle, whether or not that handle was already closed,
    and not at all otherwise; the handle it held is closed afterwards and
    no other handle is. *)
Theorem Reconnect_closes_old_handle_once
  (E : Env) (fuel : nat) (ctx : Context) (c : ReConn) (w : World)
  (r : option error) (c' : ReConn) (w' : World) :
  Reconnect E fuel ctx c w = Return r c' w' ->
  closes (trace w') =
  closes (trace w) + match Conn c with Some _ => 1 | None => 0 end
  /\ (forall h, Conn c = Some h -> In h (closed w'))
  /\ (forall h, In h (closed w') -> In h (closed w) \/ Conn c = Some h).
Proof.
  intros Hre. apply Reconnect_closed in Hre as [Hcl Hn].
  split; [exact Hn|]. rewrite Hcl. split.
  - intros h ->. now left.
  - intros h. destruct (Conn c) as [h0|]; simpl; [|auto].
    intros [<-|Hin]; auto.
Qed.

Lemma Reconnect_closes_old_handle_once_witness :
  closes [EvClose 0 4; EvReset Scenario.StopBackOff; EvConnect 0 "db";
          EvNextBackOff Scenario.StopBackOff]
  = closes [] + match Conn Scenario.connected with Some _ => 1 | None => 0 end
  /\ (forall h, Conn Scenario.connected = Some h -> In h [4])
  /\ (forall h, In h [4] ->
        In h (closed Scenario.no_world) \/ Conn Scenario.connected = Some h).
Proof.
  apply (Reconnect_closes_old_handle_once Scenario.dead_db 1 0
           Scenario.connected Scenario.no_world None Scenario.unconnected
           (mkWorld [4]
              [EvClose 0 4; EvReset Scenario.StopBackOff; EvConnect 0 "db";
               EvNextBackOff Scenario.StopBackOff])).
  reflexivity.
Defined.

(** ** The shape the operations share *)

Section SharedShape.

Variable E : Env.

Lemma Query_shape (fuel : nat) (ctx : Context) (sql : string)
  (args : list string) (c : ReConn) (w : World) :
  Query E fuel ctx sql args c w =
  with_reconnect E fuel ctx (Conn_Query E ctx sql args)
    (fun err => (None, Some err)) (fun rows err => (Some rows, err)) c w.
Proof. reflexivity. Qed.

Lemma Exec_shape (fuel : nat) (ctx : Context) (sql : string)
  (args : list string) (c : ReConn) (w : World) :
  Exec E fuel ctx sql args c w =
  with_reconnect E fuel ctx (Conn_Exec E ctx sql args)
    (fun err => (EmptyString, Some err)) (fun tag err => (tag, err)) c w.
Proof.
  unfold Exec, with_reconnect.
  destruct (checkConn E fuel ctx c w) as [| |[err|] c1 w1]; try reflexivity.
  simpl. destruct (Conn_Exec E ctx sql args c1 w1) as [| |[tag [e|]] c2 w2];
    try reflexivity.
  simpl. destruct (reconnectable e); [|reflexivity].
  destruct (Reconnect E fuel ctx c2 w2) as [| |[re|] c3 w3]; try reflexivity.
  simpl. destruct (Conn_Exec E ctx sql args c3 w3) as [| |[tag' err'] c4 w4];
    reflexivity.
Qed.

Lemma Ping_shape (fuel : nat) (ctx : Context) (c : ReConn) (w : World) :
  Ping E fuel ctx c w =
  with_reconnect E fuel ctx (Conn_Ping_pair E ctx)
    (fun err => Some err) (fun _ err => err) c w.
Proof.
  unfold Ping, with_reconnect, Conn_Ping_pair.
  destruct (checkConn E fuel ctx c w) as [| |[err|] c1 w1]; try reflexivity.
  simpl. destruct (Conn_Ping E ctx c1 w1) as [| |[e|] c2 w2]; try reflexivity.
  simpl. destruct (reconnectable e); [|reflexivity].
  destruct (Reconnect E fuel ctx c2 w2) as [| |[re|] c3 w3]; try reflexivity.
  simpl. destruct (Conn_Ping E ctx c3 w3) as [| |err' c4 w4]; reflexivity.
Qed.

Lemma Conn_Query_method (ctx : Context) (sql : string) (args : list string) :
  driver_method (Conn_Query E ctx sql args).
Proof.
  intros c w r c' w'. unfold Conn_Query.
  destruct (Conn c) as [h|]; [|discriminate]. intros [= _ <- <-].
  split; [reflexivity|]. split; [now exists h|].
  eexists. split; [reflexivity|]. auto.
Qed.

Lemma Conn_Exec_method (ctx : Context) (sql : string) (args : list string) :
  driver_method (Conn_Exec E ctx sql args).
Proof.
  intros c w r c' w'. unfold Conn_Exec.
  destruct (Conn c) as [h|]; [|discriminate]. intros [= _ <- <-].
  split; [reflexivity|]. split; [now exists h|].
  eexists. split; [reflexivity|]. auto.
Qed.

Lemma Conn_Ping_method (ctx : Context) :
  driver_method (Conn_Ping_pair E ctx).
Proof.
  intros c w r c' w'. unfold Conn_Ping_pair, Conn_Ping.
  destruct (Conn c) as [h|]; [|discriminate]. simpl. intros [= _ <- <-].
  split; [reflexivity|]. split; [now exists h|].
  eexists. split; [reflexivity|]. auto.
Qed.

Lemma Conn_QueryRow_method (ctx : Context) (sql : string) (args : list string) :
  driver_method (Conn_QueryRow E ctx sql args).
Proof.
  intros c w r c' w'. unfold Conn_QueryRow.
  destruct (Conn c) as [h|]; [|discriminate]. intros [= _ <- <-].
  split; [reflexivity|]. split; [now exists h|].
  eexists. split; [reflexivity|]. auto.
Qed.

(** The health check returns at once on a live handle and is one
    [Reconnect] otherwise. *)
Lemma checkConn_cases (fuel : nat) (ctx : Context) (c : ReConn) (w : World)
  (r : option error) (c1 : ReConn) (w1 : World) :
  checkConn E fuel ctx c w = Return r c1 w1 ->
  (r = None /\ c1 = c /\ w1 = w
   /\ exists h, Conn c = Some h /\ Conn_IsClosed E h w = false)
  \/ ((forall h, Conn c = Some h -> Conn_IsClosed E h w = true)
      /\ Reconnect E fuel ctx c w = Return r c1 w1).
Proof.
  unfold checkConn. destruct (Conn c) as [h|] eqn:Hc.
  - destruct (Conn_IsClosed E h w) eqn:Hcl; simpl.
    + intros Hre. right. split; [|exact Hre]. now intros h' [= <-].
    + intros [= <- <- <-]. left. repeat split. now exists h.
  - intros Hre. right. split; [discriminate|exact Hre].
Qed.

(** Every way [with_reconnect] can return. *)
Lemma with_reconnect_cases {A B : Type} (fuel : nat) (ctx : Context)
  (call : ReConn -> World -> run (A * option error))
  (fail : error -> B) (done : A -> option error -> B)
  (c : ReConn) (w : World) (r : B) (c' : ReConn) (w' : World) :
  with_reconnect E fuel ctx call fail done c w = Return r c' w' ->
  exists rc c1 w1,
    checkConn E fuel ctx c w = Return rc c1 w1
    /\ ((exists e, rc = Some e /\ r = fail e /\ c' = c1 /\ w' = w1)
        \/ (rc = None
            /\ exists a err c2 w2,
                call c1 w1 = Return (a, err) c2 w2
                /\ ((r = done a err /\ c' = c2 /\ w' = w2
                     /\ forall e, err = Some e -> reconnectable e = false)
                    \/ (exists e rr c3 w3,
                           err = Some e /\ reconnectable e = true
                           /\ Reconnect E fuel ctx c2 w2 = Return rr c3 w3
                           /\ ((exists re, rr = Some re
                                           /\ r = fail (reconnect_failed re e)
                                           /\ c' = c3 /\ w' = w3)
                               \/ (rr = None
                                   /\ exists a' err',
                                       call c3 w3 = Return (a', err') c' w'
                                       /\ r = done a' err')))))).
Proof.
  unfold with_reconnect.
  destruct (checkConn E fuel ctx c w) as [| |rc c1 w1]; try discriminate.
  simpl. intros H. exists rc, c1, w1. split; [reflexivity|].
  destruct rc as [e0|].
  { injection H as <- <- <-. left. exists e0. auto. }
  right. split; [reflexivity|].
  destruct (call c1 w1) as [| |[a err] c2 w2]; try discriminate.
  simpl in H. exists a, err, c2, w2. split; [reflexivity|].
  destruct err as [e|].
  - destruct (reconnectable e) eqn:Hretry.
    + right.
      destruct (Reconnect E fuel ctx c2 w2) as [| |rr c3 w3]; try discriminate.
      simpl in H. exists e, rr, c3, w3. repeat split; auto.
      destruct rr as [re|].
      * injection H as <- <- <-. left. exists re. auto.
      * right. split; [reflexivity|].
        destruct (call c3 w3) as [| |[a' err'] c4 w4]; try discriminate.
        simpl in H. injection H as <- <- <-. exists a', err'. auto.
    + injection H as <- <- <-. left. repeat split.
      intros e' [= <-]. exact Hretry.
  - injection H as <- <- <-. left. repeat split. discriminate.
Qed.

End SharedShape.

(** ** What every call keeps *)

Section Moved.

Variable E : Env.

Lemma moved_refl (c : ReConn) (w : World) : moved 0 0 c w c w.
Proof.
  unfold moved, keeps_config. repeat split; auto using incl_refl; lia.
Qed.

Lemma moved_trans (nr nc nr' nc' : nat) (c : ReConn) (w : World)
  (c1 : ReConn) (w1 : World) (c2 : ReConn) (w2 : World) :
  moved nr nc c w c1 w1 -> moved nr' nc' c1 w1 c2 w2 ->
  moved (nr + nr') (nc + nc') c w c2 w2.
Proof.
  intros ([Hs Hb] & Hi & Hl & Hd & Hr & Hc) ([Hs' Hb'] & Hi' & Hl' & Hd' & Hr' & Hc').
  unfold moved, keeps_config. repeat split; try lia.
  - congruence.
  - auto.
  - eapply incl_tran; eassumption.
  - intros h Hh. destruct (Hl h Hh) as [H1|H1]; auto.
Qed.

Lemma moved_weaken (nr nc nr' nc' : nat) (c : ReConn) (w : World)
  (c' : ReConn) (w' : World) :
  nr <= nr' -> nc <= nc' -> moved nr nc c w c' w' -> moved nr' nc' c w c' w'.
Proof.
  intros Hn Hm (Hk & Hi & Hl & Hd & Hr & Hc).
  unfold moved. repeat split; try apply Hk; auto; lia.
Qed.

Lemma Reconnect_moved (fuel : nat) (ctx : Context) (c : ReConn) (w : World)
  (r : option error) (c' : ReConn) (w' : World) :
  Reconnect E fuel ctx c w = Return r c' w' -> moved 1 0 c w c' w'.
Proof.
  intros Hre.
  pose proof (Reconnect_receiver E _ _ _ _ _ _ _ Hre) as (Hs & Hb & _).
  pose proof (Reconnect_closed E _ _ _ _ _ _ _ Hre) as (Hcl & Hn).
  pose proof (Reconnect_counts E _ _ _ _ _ _ _ Hre) as (Hd & Hr).
  unfold moved, keeps_config. repeat split.
  - exact Hs.
  - intros b Hbo. rewrite Hb. unfold Reconnect_policy. rewrite Hbo.
    now destruct (String.eqb (ConnString c) "").
  - rewrite Hcl. destruct (Conn c); auto using incl_refl, incl_tl.
  - intros h Hh. right. rewrite Hcl, Hh. now left.
  - lia.
  - destruct (String.eqb (ConnString c) ""); lia.
  - destruct (Conn c); lia.
Qed.

Lemma method_moved {A : Type} (call : ReConn -> World -> run A)
  (c : ReConn) (w : World) (r : A) (c' : ReConn) (w' : World) :
  driver_method call -> call c w = Return r c' w' -> moved 0 1 c w c' w'.
Proof.
  intros Hm Hcall. destruct (Hm _ _ _ _ _ Hcall) as (-> & _ & ev & -> & Hd & Hc & Hr).
  unfold moved, keeps_config, record. simpl.
  rewrite driver_calls_app, resets_app, closes_app.
  repeat split; auto using incl_refl; lia.
Qed.

Lemma checkConn_moved (fuel : nat) (ctx : Context) (c : ReConn) (w : World)
  (r : option error) (c' : ReConn) (w' : World) :
  checkConn E fuel ctx c w = Return r c' w' -> moved 1 0 c w c' w'.
Proof.
  intros Hcheck. apply checkConn_cases in Hcheck as [(_ & -> & -> & _)|[_ Hre]].
  - apply (moved_weaken 0 0); auto. apply moved_refl.
  - eapply Reconnect_moved; eassumption.
Qed.

Lemma with_reconnect_moved {A B : Type} (fuel : nat) (ctx : Context)
  (call : ReConn -> World -> run (A * option error))
  (fail : error -> B) (done : A -> option error -> B)
  (c : ReConn) (w : World) (r : B) (c' : ReConn) (w' : World) :
  driver_method call ->
  with_reconnect E fuel ctx call fail done c w = Return r c' w' ->
  moved 2 2 c w c' w'.
Proof.
  intros Hm Hrun.
  apply with_reconnect_cases in Hrun
    as (rc & c1 & w1 & Hcheck & [(e & _ & _ & -> & ->)|(_ & a & err & c2 & w2 & Hcall & Hrest)]).
  - apply (moved_weaken 1 0); auto. eapply checkConn_moved; eassumption.
  - apply checkConn_moved in Hcheck.
    pose proof (method_moved _ _ _ _ _ _ Hm Hcall) as Hcall1.
    pose proof (moved_trans _ _ _ _ _ _ _ _ _ _ Hcheck Hcall1) as H12.
    destruct Hrest as [(_ & -> & -> & _)|(e & rr & c3 & w3 & _ & _ & Hre & Hlast)].
    + apply (moved_weaken (1 + 0) (0 + 1)); auto.
    + apply Reconnect_moved in Hre.
      pose proof (moved_trans _ _ _ _ _ _ _ _ _ _ H12 Hre) as H13.
      destruct Hlast as [(re & _ & _ & -> & ->)|(_ & a' & err' & Hcall2 & _)].
      * apply (moved_weaken (1 + 0 + 1) (0 + 1 + 0)); auto.
      * pose proof (method_moved _ _ _ _ _ _ Hm Hcall2) as Hcall3.
        apply (moved_weaken (1 + 0 + 1 + 0) (0 + 1 + 0 + 1)); auto.
        eapply moved_trans; eassumption.
Qed.

Lemma QueryRow_moved (fuel : nat) (ctx : Context) (sql : string)
  (args : list string) (c : ReConn) (w : World)
  (r : option Row * option error) (c' : ReConn) (w' : World) :
  QueryRow E fuel ctx sql args c w = Return r c' w' -> moved 1 1 c w c' w'.
Proof.
  unfold QueryRow.
  destruct (checkConn E fuel ctx c w) as [| |[e|] c1 w1] eqn:Hcheck;
    try discriminate; simpl.
  - intros [= _ <- <-]. apply (moved_weaken 1 0); auto.
    eapply checkConn_moved; eassumption.
  - destruct (Conn_QueryRow E ctx sql args c1 w1) as [| |row c2 w2] eqn:Hcall;
      try discriminate.
    simpl. intros [= _ <- <-].
    apply checkConn_moved in Hcheck.
    apply (method_moved _ _ _ _ _ _ (Conn_QueryRow_method E ctx sql args)) in Hcall.
    apply (moved_weaken (1 + 0) (0 + 1)); auto.
    eapply moved_trans; eassumption.
Qed.

Lemma Close_moved (ctx : Context) (c : ReConn) (w : World) :
  moved 1 0 c w (snd (fst (Close E ctx c w))) (snd (Close E ctx c w)).
Proof.
  unfold Close. destruct (Conn c) as [h|] eqn:Hc.
  - destruct (Conn_IsClosed E h w); simpl.
    + apply (moved_weaken 0 0); auto. apply moved_refl.
    + unfold moved, keeps_config. simpl.
      rewrite driver_calls_app, resets_app, closes_app. simpl.
      repeat split; auto using incl_tl, incl_refl; try lia.
      intros h' Hh'. right. left. congruence.
  - simpl. apply (moved_weaken 0 0); auto. apply moved_refl.
Qed.

End Moved.

(** X3: no method changes the configuration of the receiver: after
    [Reconnect], [Query], [QueryRow], [Exec], [Ping] and [Close] the
    connection string is the same, and a policy that was set is still the
    one set. *)
Theorem configuration_is_kept
  (E : Env) (fuel : nat) (ctx : Context) (sql : string) (args : list string)
  (c : ReConn) (w : World) :
  (forall r c' w', Reconnect E fuel ctx c w = Return r c' w' -> keeps_config c c')
  /\ (forall r c' w',
         Query E fuel ctx sql args c w = Return r c' w' -> keeps_config c c')
  /\ (forall r c' w',
         QueryRow E fuel ctx sql args c w = Return r c' w' -> keeps_config c c')
  /\ (forall r c' w',
         Exec E fuel ctx sql args c w = Return r c' w' -> keeps_config c c')
  /\ (forall r c' w', Ping E fuel ctx c w = Return r c' w' -> keeps_config c c')
  /\ keeps_config c (snd (fst (Close E ctx c w))).
Proof.
  repeat split.
  1,2: eapply Reconnect_moved; eassumption.
  1,2: rewrite Query_shape in H;
       eapply (with_reconnect_moved E _ _ _ _ _ _ _ _ _ _
                 (Conn_Query_method E ctx sql args)); eassumption.
  1,2: eapply QueryRow_moved; eassumption.
  1,2: rewrite Exec_shape in H;
       eapply (with_reconnect_moved E _ _ _ _ _ _ _ _ _ _
                 (Conn_Exec_method E ctx sql args)); eassumption.
  1,2: rewrite Ping_shape in H;
       eapply (with_reconnect_moved E _ _ _ _ _ _ _ _ _ _
                 (Conn_Ping_method E ctx)); eassumption.
  1,2: apply (Close_moved E ctx c w).
Qed.

Lemma configuration_is_kept_witness :
  keeps_config Scenario.connected
    (mkReConn "db" (Some 3) (Some Scenario.StopBackOff)).
Proof.
  apply (proj1 (proj2 (configuration_is_kept Scenario.dropped 1 0 "SELECT 1" []
                         Scenario.connected Scenario.no_world))
           (Some 7, None) _
           (mkWorld [4]
              [EvQuery 0 4 "SELECT 1" []; EvClose 0 4;
               EvReset Scenario.StopBackOff; EvConnect 0 "db";
               EvQuery 0 3 "SELECT 1" []])).
  reflexivity.
Defined.

(** X4: the wrapper does not drop a handle it has not closed: when the
    receiver held handle [h] before [Reconnect], the driver's close has
    been called on [h] afterwards; after [Query], [QueryRow], [Exec],
    [Ping] and [Close] the receiver still holds [h] or the driver's close
    has been called on it. *)
Theorem handle_closed_before_dropped
  (E : Env) (fuel : nat) (ctx : Context) (sql : string) (args : list string)
  (c : ReConn) (w : World) (h : handle) :
  Conn c = Some h ->
  (forall r c' w', Reconnect E fuel ctx c w = Return r c' w' -> In h (closed w'))
  /\ (forall r c' w',
         Query E fuel ctx sql args c w = Return r c' w' ->
         Conn c' = Some h \/ In h (closed w'))
  /\ (forall r c' w',
         QueryRow E fuel ctx sql args c w = Return r c' w' ->
         Conn c' = Some h \/ In h (closed w'))
  /\ (forall r c' w',
         Exec E fuel ctx sql args c w = Return r c' w' ->
         Conn c' = Some h \/ In h (closed w'))
  /\ (forall r c' w',
         Ping E fuel ctx c w = Return r c' w' ->
         Conn c' = Some h \/ In h (closed w'))
  /\ (Conn (snd (fst (Close E ctx c w))) = Some h
      \/ In h (closed (snd (Close E ctx c w)))).
Proof.
  intros Hh. split; [|split; [|split; [|split; [|split]]]].
  - intros r c' w' Hre. apply (Reconnect_closed E) in Hre as [Hcl _].
    rewrite Hcl, Hh. now left.
  - intros r c' w' Hrun. rewrite Query_shape in Hrun.
    apply (with_reconnect_moved E _ _ _ _ _ _ _ _ _ _
             (Conn_Query_method E ctx sql args)) in Hrun.
    now apply Hrun.
  - intros r c' w' Hrun. apply (QueryRow_moved E) in Hrun. now apply Hrun.
  - intros r c' w' Hrun. rewrite Exec_shape in Hrun.
    apply (with_reconnect_moved E _ _ _ _ _ _ _ _ _ _
             (Conn_Exec_method E ctx sql args)) in Hrun.
    now apply Hrun.
  - intros r c' w' Hrun. rewrite Ping_shape in Hrun.
    apply (with_reconnect_moved E _ _ _ _ _ _ _ _ _ _
             (Conn_Ping_method E ctx)) in Hrun.
    now apply Hrun.
  - now apply (Close_moved E ctx c w).
Qed.

Lemma handle_closed_before_dropped_witness :
  Conn (mkReConn "db" (Some 3) (Some Scenario.StopBackOff)) = Some 4
  \/ In 4 [4].
Proof.
  apply (proj1 (proj2 (handle_closed_before_dropped Scenario.dropped 1 0
                         "SELECT 1" [] Scenario.connected Scenario.no_world 4
                         eq_refl))
           (Some 7, None)
           (mkReConn "db" (Some 3) (Some Scenario.StopBackOff))
           (mkWorld [4]
              [EvQuery 0 4 "SELECT 1" []; EvClose 0 4;
               EvReset Scenario.StopBackOff; EvConnect 0 "db";
               EvQuery 0 3 "SELECT 1" []])).
  reflexivity.
Defined.

(** X5: no retry storm.  Whatever the driver answers, one [Query], [Exec]
    or [Ping] that returns has called the driver's operations at most
    twice, entered the retry loop at most twice and closed at most two
    handles; one [QueryRow] at most once each; one [Reconnect] calls no
    operation of the driver at all. *)
Theorem calls_are_bounded
  (E : Env) (fuel : nat) (ctx : Context) (sql : string) (args : list string)
  (c : ReConn) (w : World) :
  (forall r c' w',
      Query E fuel ctx sql args c w = Return r c' w' ->
      driver_calls (trace w') <= driver_calls (trace w) + 2
      /\ resets (trace w') <= resets (trace w) + 2
      /\ closes (trace w') <= closes (trace w) + 2)
  /\ (forall r c' w',
         Exec E fuel ctx sql args c w = Return r c' w' ->
         driver_calls (trace w') <= driver_calls (trace w) + 2
         /\ resets (trace w') <= resets (trace w) + 2
         /\ closes (trace w') <= closes (trace w) + 2)
  /\ (forall r c' w',
         Ping E fuel ctx c w = Return r c' w' ->
         driver_calls (trace w') <= driver_calls (trace w) + 2
         /\ resets (trace w') <= resets (trace w) + 2
         /\ closes (trace w') <= closes (trace w) + 2)
  /\ (forall r c' w',
         QueryRow E fuel ctx sql args c w = Return r c' w' ->
         driver_calls (trace w') <= driver_calls (trace w) + 1
         /\ resets (trace w') <= resets (trace w) + 1
         /\ closes (trace w') <= closes (trace w) + 1)
  /\ (forall r c' w',
         Reconnect E fuel ctx c w = Return r c' w' ->
         driver_calls (trace w') = driver_calls (trace w)
         /\ resets (trace w') <= resets (trace w) + 1
         /\ closes (trace w') <= closes (trace w) + 1).
Proof.
  split; [|split; [|split; [|split]]].
  - intros r c' w' Hrun. rewrite Query_shape in Hrun.
    apply (with_reconnect_moved E _ _ _ _ _ _ _ _ _ _
             (Conn_Query_method E ctx sql args)) in Hrun.
    apply Hrun.
  - intros r c' w' Hrun. rewrite Exec_shape in Hrun.
    apply (with_reconnect_moved E _ _ _ _ _ _ _ _ _ _
             (Conn_Exec_method E ctx sql args)) in Hrun.
    apply Hrun.
  - intros r c' w' Hrun. rewrite Ping_shape in Hrun.
    apply (with_reconnect_moved E _ _ _ _ _ _ _ _ _ _
             (Conn_Ping_method E ctx)) in Hrun.
    apply Hrun.
  - intros r c' w' Hrun. apply (QueryRow_moved E) in Hrun. apply Hrun.
  - intros r c' w' Hrun.
    pose proof (Reconnect_counts E _ _ _ _ _ _ _ Hrun) as [Hd _].
    apply (Reconnect_moved E) in Hrun. split; [exact Hd|]. split; apply Hrun.
Qed.

Lemma calls_are_bounded_witness :
  driver_calls [EvQuery 0 4 "SELECT 1" []; EvClose 0 4;
                EvReset Scenario.StopBackOff; EvConnect 0 "db";
                EvQuery 0 3 "SELECT 1" []]
  <= driver_calls [] + 2
  /\ resets [EvQuery 0 4 "SELECT 1" []; EvClose 0 4;
             EvReset Scenario.StopBackOff; EvConnect 0 "db";
             EvQuery 0 3 "SELECT 1" []]
     <= resets [] + 2
  /\ closes [EvQuery 0 4 "SELECT 1" []; EvClose 0 4;
             EvReset Scenario.StopBackOff; EvConnect 0 "db";
             EvQuery 0 3 "SELECT 1" []]
     <= closes [] + 2.
Proof.
  apply (proj1 (calls_are_bounded Scenario.dropped 1 0 "SELECT 1" []
                  Scenario.connected Scenario.no_world)
           (Some 7, None)
           (mkReConn "db" (Some 3) (Some Scenario.StopBackOff))
           (mkWorld [4]
              [EvQuery 0 4 "SELECT 1" []; EvClose 0 4;
               EvReset Scenario.StopBackOff; EvConnect 0 "db";
               EvQuery 0 3 "SELECT 1" []])).
  reflexivity.
Defined.

(** X6: after [Close] the next health check always reconnects, whatever
    [Close] found; and over the two calls the driver's close is called
    exactly once when the receiver held a handle (by [Close] on a live
    handle, by [Reconnect] on one that was already closed) and never
    otherwise. *)
Theorem Close_then_health_check_reconnects
  (E : Env) (fuel : nat) (ctx ctx' : Context) (c : ReConn) (w : World) :
  let c1 := snd (fst (Close E ctx c w)) in
  let w1 := snd (Close E ctx c w) in
  checkConn E fuel ctx' c1 w1 = Reconnect E fuel ctx' c1 w1
  /\ forall r c' w',
      checkConn E fuel ctx' c1 w1 = Return r c' w' ->
      closes (trace w') =
      closes (trace w) + match Conn c with Some _ => 1 | None => 0 end.
Proof.
  unfold Close. destruct (Conn c) as [h|] eqn:Hc.
  - destruct (Conn_IsClosed E h w) eqn:Hcl; simpl.
    + assert (Heq : checkConn E fuel ctx' c w = Reconnect E fuel ctx' c w).
      { unfold checkConn. now rewrite Hc, Hcl. }
      split; [exact Heq|]. intros r c' w'. rewrite Heq. intros Hre.
      apply (Reconnect_closed E) in Hre as [_ Hn]. now rewrite Hc in Hn.
    + split; [reflexivity|]. intros r c' w'. unfold checkConn; simpl.
      intros Hre. apply (Reconnect_closed E) in Hre as [_ Hn].
      simpl in Hn. rewrite closes_app in Hn. simpl in Hn. lia.
  - simpl.
    assert (Heq : checkConn E fuel ctx' c w = Reconnect E fuel ctx' c w).
    { unfold checkConn. now rewrite Hc. }
    split; [exact Heq|]. intros r c' w'. rewrite Heq. intros Hre.
    apply (Reconnect_closed E) in Hre as [_ Hn]. now rewrite Hc in Hn.
Qed.

(** X7: [Connect] with a connection string returns a receiver, also when it
    returns an error: the receiver has that string and the policy given, or
    the default one, and holds no handle when an error comes with it.
    [Connect] enters the retry loop once and calls neither the driver's
    close nor any operation of a handle. *)
Theorem Connect_result
  (E : Env) (fuel : nat) (ctx : Context) (connString : string)
  (bo : option BackOff) (w : World)
  (rc : option ReConn) (err : option error) (w' : World) :
  connString <> "" ->
  Connect E fuel ctx connString bo w = Some (rc, err, w') ->
  exists c',
    rc = Some c'
    /\ ConnString c' = connString
    /\ Backoff c' = Some match bo with
                         | Some b => b
                         | None => NewExponentialBackOff
                         end
    /\ (forall e, err = Some e -> Conn c' = None)
    /\ resets (trace w') = S (resets (trace w))
    /\ closes (trace w') = closes (trace w)
    /\ driver_calls (trace w') = driver_calls (trace w)
    /\ closed w' = closed w.
Proof.
  intros Hs. unfold Connect.
  destruct (String.eqb_spec connString "") as [|_]; [contradiction|].
  destruct (Reconnect E fuel ctx (mkReConn connString None bo) w)
    as [| |r c1 w1] eqn:Hre; try discriminate.
  intros [= <- <- <-]. exists c1.
  pose proof (Reconnect_receiver E _ _ _ _ _ _ _ Hre) as (Hcs & Hb & Herr).
  pose proof (Reconnect_closed E _ _ _ _ _ _ _ Hre) as (Hcl & Hn).
  pose proof (Reconnect_counts E _ _ _ _ _ _ _ Hre) as (Hd & Hr).
  simpl in *. apply String.eqb_neq in Hs. rewrite Hs in Hb, Hr.
  unfold Reconnect_policy in Hb; simpl in Hb.
  repeat split; auto; try lia.
Qed.

Lemma Connect_result_witness :
  exists c',
    Some Scenario.unconnected = Some c'
    /\ ConnString c' = "db"
    /\ Backoff c' = Some Scenario.StopBackOff
    /\ (forall e, @None error = Some e -> Conn c' = None)
    /\ resets [EvReset Scenario.StopBackOff; EvConnect 0 "db";
               EvNextBackOff Scenario.StopBackOff] = S (resets [])
    /\ closes [EvReset Scenario.StopBackOff; EvConnect 0 "db";
               EvNextBackOff Scenario.StopBackOff] = closes []
    /\ driver_calls [EvReset Scenario.StopBackOff; EvConnect 0 "db";
                     EvNextBackOff Scenario.StopBackOff] = driver_calls []
    /\ @nil handle = [].
Proof.
  apply (Connect_result Scenario.dead_db 1 0 "db" (Some Scenario.StopBackOff)
           Scenario.no_world (Some Scenario.unconnected) None
           (mkWorld []
              [EvReset Scenario.StopBackOff; EvConnect 0 "db";
               EvNextBackOff Scenario.StopBackOff])).
  - discriminate.
  - reflexivity.
Defined.

(** X8: when the first connection attempt succeeds, [Connect] returns the
    receiver with the new handle and no error after exactly one attempt:
    the policy is reset but never asked for an interval, and nothing is
    waited for. *)
Theorem Connect_first_attempt
  (E : Env) (fuel : nat) (ctx : Context) (connString : string)
  (bo : option BackOff) (w : World) :
  connString <> "" ->
  on_Connect E
    (trace w ++ [EvReset match bo with
                         | Some b => b
                         | None => NewExponentialBackOff
                         end])
    ctx connString = None ->
  let b := match bo with Some b => b | None => NewExponentialBackOff end in
  Connect E (S fuel) ctx connString bo w =
  Some (Some (mkReConn connString (Some (S (List.length (trace w)))) (Some b)),
        None,
        mkWorld (closed w) (trace w ++ [EvReset b; EvConnect ctx connString])).
Proof.
  intros Hs Hok. apply String.eqb_neq in Hs.
  unfold Connect, Reconnect, backoff_Retry. rewrite Hs. simpl. rewrite Hs.
  destruct bo as [b|]; simpl in *;
    unfold connect_once, pgx_Connect; simpl; rewrite Hok; simpl;
    unfold record, set_Conn, set_Backoff; simpl;
    rewrite length_app, <- app_assoc; simpl;
    rewrite Nat.add_1_r; reflexivity.
Qed.

Lemma Connect_first_attempt_witness :
  Connect Scenario.healthy 1 0 "db" None Scenario.no_world =
  Some (Some (mkReConn "db" (Some 1) (Some NewExponentialBackOff)),
        None,
        mkWorld [] [EvReset NewExponentialBackOff; EvConnect 0 "db"]).
Proof.
  apply (Connect_first_attempt Scenario.healthy 0 0 "db" None Scenario.no_world).
  - discriminate.
  - reflexivity.
Defined.

Lemma Close_then_health_check_reconnects_witness :
  closes [EvClose 0 4; EvReset Scenario.StopBackOff; EvConnect 0 "db"]
  = closes (trace Scenario.no_world)
    + match Conn Scenario.connected with Some _ => 1 | None => 0 end.
Proof.
  apply (proj2 (Close_then_health_check_reconnects Scenario.healthy 1 0 0
                  Scenario.connected Scenario.no_world)
           None (mkReConn "db" (Some 2) (Some Scenario.StopBackOff))
           (mkWorld [4]
              [EvClose 0 4; EvReset Scenario.StopBackOff; EvConnect 0 "db"])).
  reflexivity.
Defined.

(** X9: on a receiver whose handle is live, an operation whose driver call
    succeeds is that one call and nothing else: no reconnect, no close, the
    receiver untouched, and no fuel needed.  [QueryRow] is that for every
    answer of the driver. *)
Theorem live_handle_is_used_directly
  (E : Env) (fuel : nat) (ctx : Context) (sql : string) (args : list string)
  (c : ReConn) (w : World) (h : handle) :
  Conn c = Some h ->
  Conn_IsClosed E h w = false ->
  (forall rows,
      on_Query E (trace w) ctx h sql args = (rows, None) ->
      Query E fuel ctx sql args c w =
      Return (Some rows, None) c
        (mkWorld (closed w) (trace w ++ [EvQuery ctx h sql args])))
  /\ (forall tag,
         on_Exec E (trace w) ctx h sql args = (tag, None) ->
         Exec E fuel ctx sql args c w =
         Return (tag, None) c
           (mkWorld (closed w) (trace w ++ [EvExec ctx h sql args])))
  /\ (on_Ping E (trace w) ctx h = None ->
      Ping E fuel ctx c w =
      Return None c (mkWorld (closed w) (trace w ++ [EvPing ctx h])))
  /\ QueryRow E fuel ctx sql args c w =
     Return (Some (on_QueryRow E (trace w) ctx h sql args), None) c
       (mkWorld (closed w) (trace w ++ [EvQueryRow ctx h sql args])).
Proof.
  intros Hh Hlive.
  assert (Hcheck : checkConn E fuel ctx c w = Return None c w).
  { unfold checkConn. now rewrite Hh, Hlive. }
  split; [|split; [|split]].
  - intros rows Hcall. unfold Query. rewrite Hcheck. simpl.
    unfold Conn_Query. rewrite Hh, Hcall. reflexivity.
  - intros tag Hcall. unfold Exec. rewrite Hcheck. simpl.
    unfold Conn_Exec. rewrite Hh, Hcall. reflexivity.
  - intros Hcall. unfold Ping. rewrite Hcheck. simpl.
    unfold Conn_Ping. rewrite Hh, Hcall. reflexivity.
  - unfold QueryRow. rewrite Hcheck. simpl.
    unfold Conn_QueryRow. rewrite Hh. reflexivity.
Qed.

Lemma live_handle_is_used_directly_witness :
  Query Scenario.healthy 0 0 "SELECT 1" [] Scenario.connected Scenario.no_world
  = Return (Some 7, None) Scenario.connected
      (mkWorld [] [EvQuery 0 4 "SELECT 1" []]).
Proof.
  apply (proj1 (live_handle_is_used_directly Scenario.healthy 0 0 "SELECT 1" []
                  Scenario.connected Scenario.no_world 4 eq_refl eq_refl)).
  reflexivity.
Defined.

(** X10: on a receiver with an empty connection string and no live handle,
    every operation returns [ErrNoConnString] itself, not wrapped, with the
    zero value; no operation of the driver is called; a closed handle the
    receiver still held is closed through the driver and dropped. *)
Theorem operations_without_target
  (E : Env) (fuel : nat) (ctx : Context) (sql : string) (args : list string)
  (c : ReConn) (w : World) :
  ConnString c = "" ->
  (forall h, Conn c = Some h -> Conn_IsClosed E h w = true) ->
  let w1 := match Conn c with
            | Some h => mkWorld (h :: closed w) (trace w ++ [EvClose ctx h])
            | None => w
            end in
  Query E fuel ctx sql args c w =
  Return (None, Some ErrNoConnString) (set_Conn c None) w1
  /\ QueryRow E fuel ctx sql args c w =
     Return (None, Some ErrNoConnString) (set_Conn c None) w1
  /\ Exec E fuel ctx sql args c w =
     Return (EmptyString, Some ErrNoConnString) (set_Conn c None) w1
  /\ Ping E fuel ctx c w = Return (Some ErrNoConnString) (set_Conn c None) w1.
Proof.
  intros Hs Hdead w1.
  assert (Hcheck : checkConn E fuel ctx c w =
                   Return (Some ErrNoConnString) (set_Conn c None) w1).
  { unfold checkConn. subst w1.
    destruct (Conn c) as [h|] eqn:Hc.
    - rewrite (Hdead h eq_refl). simpl.
      rewrite (Reconnect_empty E fuel ctx c w Hs), Hc. reflexivity.
    - rewrite (Reconnect_empty E fuel ctx c w Hs), Hc. reflexivity. }
  unfold Query, QueryRow, Exec, Ping. rewrite Hcheck. simpl. auto.
Qed.

Lemma operations_without_target_witness :
  Query Scenario.healthy 0 0 "SELECT 1" [] (mkReConn "" None None)
    Scenario.no_world
  = Return (None, Some ErrNoConnString) (mkReConn "" None None)
      Scenario.no_world.
Proof.
  apply (operations_without_target Scenario.healthy 0 0 "SELECT 1" []
           (mkReConn "" None None) Scenario.no_world).
  - reflexivity.
  - discriminate.
Defined.

(** X11: on a receiver with an empty connection string and a live handle,
    a failure that [reconnectable] accepts costs the handle: it is closed
    through the driver and dropped, and the operation returns the composite
    error around [ErrNoConnString] and the driver's error. *)
Theorem retry_without_target
  (E : Env) (fuel : nat) (ctx : Context) (sql : string) (args : list string)
  (c : ReConn) (w : World) (h : handle) (e : error) :
  ConnString c = "" ->
  Conn c = Some h ->
  Conn_IsClosed E h w = false ->
  reconnectable e = true ->
  (forall rows,
      on_Query E (trace w) ctx h sql args = (rows, Some e) ->
      Query E fuel ctx sql args c w =
      Return (None, Some (reconnect_failed ErrNoConnString e)) (set_Conn c None)
        (mkWorld (h :: closed w)
           (trace w ++ [EvQuery ctx h sql args; EvClose ctx h])))
  /\ (forall tag,
         on_Exec E (trace w) ctx h sql args = (tag, Some e) ->
         Exec E fuel ctx sql args c w =
         Return (EmptyString, Some (reconnect_failed ErrNoConnString e))
           (set_Conn c None)
           (mkWorld (h :: closed w)
              (trace w ++ [EvExec ctx h sql args; EvClose ctx h])))
  /\ (on_Ping E (trace w) ctx h = Some e ->
      Ping E fuel ctx c w =
      Return (Some (reconnect_failed ErrNoConnString e)) (set_Conn c None)
        (mkWorld (h :: closed w) (trace w ++ [EvPing ctx h; EvClose ctx h]))).
Proof.
  intros Hs Hh Hlive Hretry.
  assert (Hcheck : checkConn E fuel ctx c w = Return None c w).
  { unfold checkConn. now rewrite Hh, Hlive. }
  split; [|split].
  - intros rows Hcall. unfold Query. rewrite Hcheck. simpl.
    unfold Conn_Query. rewrite Hh, Hcall. simpl. rewrite Hretry.
    rewrite (Reconnect_empty E fuel ctx c _ Hs), Hh. simpl.
    unfold record. simpl. now rewrite <- app_assoc.
  - intros tag Hcall. unfold Exec. rewrite Hcheck. simpl.
    unfold Conn_Exec. rewrite Hh, Hcall. simpl. rewrite Hretry.
    rewrite (Reconnect_empty E fuel ctx c _ Hs), Hh. simpl.
    unfold record. simpl. now rewrite <- app_assoc.
  - intros Hcall. unfold Ping. rewrite Hcheck. simpl.
    unfold Conn_Ping. rewrite Hh, Hcall. simpl. rewrite Hretry.
    rewrite (Reconnect_empty E fuel ctx c _ Hs), Hh. simpl.
    unfold record. simpl. now rewrite <- app_assoc.
Qed.

Lemma retry_without_target_witness :
  Ping Scenario.dropped 0 0 (mkReConn "" (Some 4) None) Scenario.no_world
  = Return (Some (reconnect_failed ErrNoConnString Scenario.conn_closed))
      (mkReConn "" None None)
      (mkWorld [4] [EvPing 0 4; EvClose 0 4]).
Proof.
  apply (proj2 (proj2 (retry_without_target Scenario.dropped 0 0 "SELECT 1" []
                         (mkReConn "" (Some 4) None) Scenario.no_world 4
                         Scenario.conn_closed eq_refl eq_refl eq_refl eq_refl))).
  reflexivity.
Defined.

(** ** The composite error *)

Section Composite.

Lemma prefix_refl (s : string) : String.prefix s s = true.
Proof.
  induction s as [|a s IH]; simpl; [reflexivity|].
  destruct (Ascii.ascii_dec a a); [exact IH|congruence].
Qed.

Lemma prefix_empty (s : string) : String.prefix "" s = true.
Proof. now destruct s. Qed.

Lemma prefix_app (p s t : string) :
  String.prefix p s = true -> String.prefix p (s ++ t) = true.
Proof.
  revert s. induction p as [|a p IH]; intros s.
  - intros _. apply prefix_empty.
  - destruct s as [|b s]; simpl; [discriminate|].
    destruct (Ascii.ascii_dec a b); [apply IH|discriminate].
Qed.

Lemma Contains_self (s : string) : strings_Contains s s = true.
Proof.
  destruct s as [|a s]; [reflexivity|].
  cbn [strings_Contains]. now rewrite prefix_refl.
Qed.

Lemma Contains_app_l (s t sub : string) :
  strings_Contains s sub = true -> strings_Contains (s ++ t) sub = true.
Proof.
  induction s as [|a s IH]; cbn [strings_Contains append].
  - destruct sub; simpl; [|discriminate]. intros _. now destruct t.
  - destruct (String.prefix sub (String a s)) eqn:Hp.
    + intros _. apply (prefix_app _ _ t) in Hp. cbn [append] in Hp.
      now rewrite Hp.
    + intros H. destruct (String.prefix sub (String a (s ++ t))); auto.
Qed.

Lemma Contains_app_r (s t sub : string) :
  strings_Contains t sub = true -> strings_Contains (s ++ t) sub = true.
Proof.
  intros H. induction s as [|a s IH]; cbn [strings_Contains append];
    [exact H|].
  destruct (String.prefix sub (String a (s ++ t))); auto.
Qed.

End Composite.

(** X12: the composite error of a failed reconnect keeps what it wraps in
    reach.  Its message contains the message of the reconnect failure and
    that of the original failure; [errors.As] for a type of the driver or
    of the backoff library finds in it what it finds in the reconnect
    failure or else in the original failure; so [pgconn.Timeout] holds of
    it exactly when it holds of one of the two. *)
Theorem composite_error_keeps_causes (re e : error) :
  strings_Contains (Error (reconnect_failed re e)) (Error re) = true
  /\ strings_Contains (Error (reconnect_failed re e)) (Error e) = true
  /\ (forall k, k <> KPlain ->
        errors_As k (reconnect_failed re e) =
        match errors_As k re with
        | Some r => Some r
        | None => errors_As k e
        end)
  /\ pgconn_Timeout (reconnect_failed re e) = pgconn_Timeout re || pgconn_Timeout e.
Proof.
  assert (Has : forall k, k <> KPlain ->
            errors_As k (reconnect_failed re e) =
            match errors_As k re with
            | Some r => Some r
            | None => errors_As k e
            end).
  { intros k Hk. unfold reconnect_failed. cbn [errors_As].
    destruct k; try contradiction; simpl;
      destruct (errors_As _ re); try reflexivity;
      destruct (errors_As _ e); reflexivity. }
  split; [|split; [|split]].
  - unfold reconnect_failed. cbn [Error].
    apply Contains_app_r, Contains_app_r, Contains_app_l, Contains_self.
  - unfold reconnect_failed. cbn [Error].
    do 4 apply Contains_app_r. apply Contains_self.
  - exact Has.
  - unfold pgconn_Timeout. rewrite Has by discriminate.
    destruct (errors_As KTimeout re); [reflexivity|].
    now destruct (errors_As KTimeout e).
Qed.

(** ** What [Reconnect] calls *)

Section ReconnectCalls.

Variable E : Env.

Lemma BackOff_eqb_refl (b : BackOff) : BackOff_eqb b b = true.
Proof.
  unfold BackOff_eqb. rewrite Nat.eqb_refl.
  destruct (bo_ctx b); [apply Nat.eqb_refl|reflexivity].
Qed.

Lemma forallb_snoc {A : Type} (f : A -> bool) (l : list A) (x : A) :
  forallb f (l ++ [x]) = forallb f l && f x.
Proof. rewrite forallb_app. simpl. now rewrite andb_true_r. Qed.

(** The retry loop connects to the receiver's string under the caller's
    context, asks its policy, and waits. *)
Lemma retry_loop_calls (fuel : nat) (ctx : Context) (b : BackOff)
  (old : option handle) (c : ReConn) (w : World)
  (s : stop) (c' : ReConn) (w' : World) :
  retry_loop E fuel (connect_once E ctx) b c w = Some (s, c', w') ->
  exists l, trace w' = (trace w ++ l)%list
            /\ forallb (reconnect_step ctx (ConnString c) b old) l = true.
Proof.
  assert (Hconn : reconnect_step ctx (ConnString c) b old
                    (EvConnect ctx (ConnString c)) = true).
  { simpl. now rewrite Nat.eqb_refl, String.eqb_refl. }
  assert (Hnext : reconnect_step ctx (ConnString c) b old (EvNextBackOff b) = true).
  { simpl. apply BackOff_eqb_refl. }
  revert w. induction fuel as [|fuel IH]; intros w; simpl; [discriminate|].
  unfold connect_once at 1, pgx_Connect.
  destruct (on_Connect E (trace w) ctx (ConnString c)) as [err|].
  - destruct (errors_As KPermanent err).
    + intros [= _ _ <-]. exists [EvConnect ctx (ConnString c)].
      simpl. split; [reflexivity|]. now rewrite Nat.eqb_refl, String.eqb_refl.
    + destruct (on_NextBackOff E _ b) as [next|].
      * destruct (policy_ctx_Err E b _).
        -- intros [= _ _ <-].
           exists [EvConnect ctx (ConnString c); EvNextBackOff b; EvWait next].
           simpl. rewrite <- !app_assoc. split; [reflexivity|].
           now rewrite Nat.eqb_refl, String.eqb_refl, BackOff_eqb_refl.
        -- intros Hloop. apply IH in Hloop as (l & Htr & Hl).
           exists ([EvConnect ctx (ConnString c); EvNextBackOff b; EvWait next] ++ l)%list.
           rewrite Htr. simpl. rewrite <- !app_assoc. split; [reflexivity|].
           now rewrite Nat.eqb_refl, String.eqb_refl, BackOff_eqb_refl.
      * destruct (policy_ctx_Err E b _); intros [= _ _ <-];
          exists [EvConnect ctx (ConnString c); EvNextBackOff b];
          simpl; rewrite <- !app_assoc; (split; [reflexivity|]);
          now rewrite Nat.eqb_refl, String.eqb_refl, BackOff_eqb_refl.
  - intros [= _ _ <-]. exists [EvConnect ctx (ConnString c)].
    simpl. split; [reflexivity|]. now rewrite Nat.eqb_refl, String.eqb_refl.
Qed.

End ReconnectCalls.

(** X13: the calls one [Reconnect] makes are only these: the driver's close
    on the handle the receiver held, a reset of and requests to the
    receiver's policy (the default one when it had none), waits, and
    connection attempts to the receiver's own connection string under the
    caller's context. *)
Theorem Reconnect_calls
  (E : Env) (fuel : nat) (ctx : Context) (c : ReConn) (w : World)
  (r : option error) (c' : ReConn) (w' : World) :
  Reconnect E fuel ctx c w = Return r c' w' ->
  exists l,
    trace w' = (trace w ++ l)%list
    /\ forallb (reconnect_step ctx (ConnString c) (Reconnect_policy c) (Conn c)) l
       = true.
Proof.
  destruct (String.eqb_spec (ConnString c) "") as [Hs|Hs].
  - rewrite (Reconnect_empty E fuel ctx c w Hs). intros [= _ _ <-].
    destruct (Conn c) as [h|]; simpl.
    + exists [EvClose ctx h]. split; [reflexivity|]. simpl.
      now rewrite !Nat.eqb_refl.
    + exists []. now rewrite app_nil_r.
  - rewrite (Reconnect_eq E fuel ctx c w Hs). unfold Reconnect_loop.
    assert (Hcs : ConnString (fst (Reconnect_start E ctx c w)) = ConnString c)
      by apply Reconnect_start_Conn.
    assert (Htr : trace (snd (Reconnect_start E ctx c w)) =
                  (trace w ++ match Conn c with
                              | Some h => [EvClose ctx h]
                              | None => []
                              end)%list).
    { unfold Reconnect_start. destruct (Conn c); simpl;
        [reflexivity|now rewrite app_nil_r]. }
    destruct (Reconnect_start E ctx c w) as [c1 w1]. simpl in Hcs, Htr.
    destruct (retry_loop E fuel _ _ c1 _) as [[[s c0] w0]|] eqn:Hloop;
      [|discriminate].
    intros [= _ _ <-].
    apply (retry_loop_calls E _ _ _ (Conn c)) in Hloop as (l & Hl & Hall).
    simpl in Hl. rewrite Htr, Hcs in *.
    exists (match Conn c with Some h => [EvClose ctx h] | None => [] end
            ++ EvReset (Reconnect_policy c) :: l)%list.
    split.
    + rewrite Hl, <- !app_assoc. reflexivity.
    + rewrite forallb_app. simpl. rewrite Hall, BackOff_eqb_refl.
      destruct (Conn c); simpl; [|reflexivity].
      now rewrite !Nat.eqb_refl.
Qed.

Lemma Reconnect_calls_witness :
  exists l,
    [EvClose 0 4; EvReset Scenario.StopBackOff; EvConnect 0 "db";
     EvNextBackOff Scenario.StopBackOff] = (trace Scenario.no_world ++ l)%list
    /\ forallb (reconnect_step 0 "db" (Reconnect_policy Scenario.connected)
                  (Conn Scenario.connected)) l = true.
Proof.
  apply (Reconnect_calls Scenario.dead_db 1 0 Scenario.connected
           Scenario.no_world None Scenario.unconnected
           (mkWorld [4]
              [EvClose 0 4; EvReset Scenario.StopBackOff; EvConnect 0 "db";
               EvNextBackOff Scenario.StopBackOff])).
  reflexivity.
Defined.

(** X14: the context handed to [Reconnect] is not what stops its retry
    loop.  With a policy that carries no context, and so with the default
    policy installed for a receiver that had none, the loop never stops
    through cancellation: it ends by connecting, on a permanent failure, or
    when the policy gives up. *)
Theorem Reconnect_loop_ignores_caller_context
  (E : Env) (fuel : nat) (ctx : Context) (c : ReConn) (w : World)
  (s : stop) (c' : ReConn) (w' : World) :
  bo_ctx (Reconnect_policy c) = None ->
  Reconnect_loop E fuel ctx c w = Some (s, c', w') ->
  s = Connected
  \/ (exists failure, s = PermanentFailure failure)
  \/ (exists last, s = Exhausted last).
Proof.
  intros Hb Hloop. unfold Reconnect_loop in Hloop.
  destruct (Reconnect_start E ctx c w) as [c1 w1].
  pose proof (retry_loop_Background E _ _ _ _ _ _ _ _ Hb Hloop) as Hno.
  destruct s as [|failure|last|ce|ce]; eauto.
  - now elim (proj1 (Hno ce)).
  - now elim (proj2 (Hno ce)).
Qed.

Lemma Reconnect_loop_ignores_caller_context_witness :
  Exhausted Scenario.connect_refused = Connected
  \/ (exists failure, Exhausted Scenario.connect_refused = PermanentFailure failure)
  \/ (exists last, Exhausted Scenario.connect_refused = Exhausted last).
Proof.
  apply (Reconnect_loop_ignores_caller_context Scenario.dead_db 1 0
           (mkReConn "db" None None) Scenario.no_world
           (Exhausted Scenario.connect_refused)
           (mkReConn "db" None (Some NewExponentialBackOff))
           (mkWorld []
              [EvReset NewExponentialBackOff; EvConnect 0 "db";
               EvNextBackOff NewExponentialBackOff])).
  - reflexivity.
  - reflexivity.
Defined.
